(** * The SimBricks main runner: event routing and run lifecycle

    A shallow embedding of [simbricks/runner/main_runner/__main__.py].

    Python objects that are shared and mutated (handler dictionaries,
    callbacks, fragment runners, runs) live in a store and are referred to
    by reference; every method becomes a computation in a state-and-exception
    monad whose state survives a raised exception, as it does in Python.

    Conventions.
    - A Python [dict] whose iteration order is observed is an association
      list in insertion order; a [dict] that is only indexed is a [gmap].
    - A Python [set] of objects is a duplicate-free list; the order of the
      list is the order in which the set is iterated.
    - The coroutines are run to completion one after the other.  A task
      runs at the first [await] after it was created, tasks that wait
      together run in the order in which they were created, and a [gather]
      lets every task run also when one of them raises.
    - The reader task of a fragment runner is not run: the store records
      whether it is pending, was cancelled, or has failed.
    - Calls that leave the process (backend RPCs, executor plug-ins) are
      appended to a trace.  Those whose failure the source handles take their
      outcome from the record [External]; the others return normally. *)

From Stdlib Require Import ZArith String Ascii List Bool Lia.
From stdpp Require Import base option list gmap strings.

Import ListNotations.
Local Open Scope string_scope.
Local Open Scope list_scope.
Local Open Scope Z_scope.

(** ** Schemas used by the runner *)

(** [schemas.ApiEventStatus]. *)
Inductive ApiEventStatus := PENDING | COMPLETED | CANCELLED | ERROR.

(** [schemas.RunState]. *)
Inductive RunState :=
  RS_SPAWNED | RS_STARTING | RS_RUNNING | RS_COMPLETED | RS_ERROR | RS_CANCELLED.

(** [schemas.RunEventType]. *)
Inductive RunEventType := KILL | SIMULATION_STATUS | START_RUN.

(** [schemas.ApiEventType]: the direction of a bundle. *)
Inductive ApiEventType :=
  ApiEventCreate | ApiEventUpdate | ApiEventDelete | ApiEventQuery | ApiEventRead.

#[global] Instance ApiEventStatus_eq_dec : EqDecision ApiEventStatus.
Proof. solve_decision. Defined.
#[global] Instance RunState_eq_dec : EqDecision RunState.
Proof. solve_decision. Defined.
#[global] Instance RunEventType_eq_dec : EqDecision RunEventType.
Proof. solve_decision. Defined.
#[global] Instance ApiEventType_eq_dec : EqDecision ApiEventType.
Proof. solve_decision. Defined.

(** Modelled from the spec: the order of [schemas.RunState], which the
    sources compare with [<] but do not define.  The states are ordered as
    listed, so that every state from [COMPLETED] on is terminal. *)
Definition RunState_rank (s : RunState) : Z :=
  match s with
  | RS_SPAWNED => 0
  | RS_STARTING => 1
  | RS_RUNNING => 2
  | RS_COMPLETED => 3
  | RS_ERROR => 4
  | RS_CANCELLED => 5
  end.

(** [a < b] on run states. *)
Definition RunState_ltb (a b : RunState) : bool :=
  RunState_rank a <? RunState_rank b.

(** An update event ([ApiRunEventUpdate], [ApiRunnerEventUpdate]).  A field
    the runner has not set is [None]. *)
Record ApiEventUpdate_U := {
  upd_discriminator : string;
  upd_id : Z;
  upd_runner_id : Z;
  upd_run_id : option Z;
  upd_event_status : option ApiEventStatus;
}.

Definition set_event_status (s : ApiEventStatus) (u : ApiEventUpdate_U) :=
  {| upd_discriminator := upd_discriminator u;
     upd_id := upd_id u;
     upd_runner_id := upd_runner_id u;
     upd_run_id := upd_run_id u;
     upd_event_status := Some s |}.

(** One entry of [event.fragments] of a start-run event. *)
Record RunFragmentRead := {
  rf_id : Z;
  rf_fragment_id : Z;
  rf_fragment_object_id : Z;
  rf_fragment_executor_tag : option string;
}.

(** What a start-run event carries on top of a run event. *)
Record StartRunPayload := {
  system_sb_json : string;
  simulation_sb_json : string;
  inst_sb_json : string;
  inst_id : Z;
  fragments : list RunFragmentRead;
  inst_input_artifact : option string;
  fragment_input_artifact : option string;
}.

(** [ApiRunEventRead]; an [ApiRunEventStartRunRead] is one with a payload. *)
Record ApiRunEventRead := {
  re_id : Z;
  re_run_id : option Z;
  re_run_event_type : RunEventType;
  re_event_discriminator : string;
  re_start : option StartRunPayload;
}.

(** [ApiRunnerEventRead]; [heartbeat] is the only runner event type that
    the runner knows. *)
Record ApiRunnerEventRead := {
  rn_id : Z;
  rn_heartbeat : bool;
}.

(** The events that travel in bundles. *)
Inductive Event :=
| EUpdate (u : ApiEventUpdate_U)
| ERunRead (e : ApiRunEventRead)
| ERunnerRead (e : ApiRunnerEventRead)
| ERunFragmentStateCreate (run_id run_fragment_id : Z) (run_state : RunState)
| ERunFragmentOutputArtifactCreate
    (run_id run_fragment_id : Z) (output_artifact output_artifact_name : string)
| EOther (discriminator : string).

Definition event_discriminator (e : Event) : string :=
  match e with
  | EUpdate u => upd_discriminator u
  | ERunRead r => re_event_discriminator r
  | ERunnerRead _ => "ApiRunnerEventRead"
  | ERunFragmentStateCreate _ _ _ => "ApiRunFragmentStateEventCreate"
  | ERunFragmentOutputArtifactCreate _ _ _ _ => "ApiRunFragmentOutputArtifactEventCreate"
  | EOther d => d
  end.

(** ** Python dictionaries with observable order *)

Section Dict.
Context {K V : Type} `{EqDecision K}.

Fixpoint dict_get (k : K) (d : list (K * V)) : option V :=
  match d with
  | [] => None
  | (k', v) :: d' => if decide (k = k') then Some v else dict_get k d'
  end.

(** [d[k] = v]: an existing key keeps its place. *)
Fixpoint dict_set (k : K) (v : V) (d : list (K * V)) : list (K * V) :=
  match d with
  | [] => [(k, v)]
  | (k', v') :: d' =>
      if decide (k = k') then (k, v) :: d' else (k', v') :: dict_set k v d'
  end.

Fixpoint dict_del (k : K) (d : list (K * V)) : list (K * V) :=
  match d with
  | [] => []
  | (k', v') :: d' =>
      if decide (k = k') then d' else (k', v') :: dict_del k d'
  end.

Definition dict_mem (k : K) (d : list (K * V)) : bool :=
  bool_decide (is_Some (dict_get k d)).

Definition dict_keys (d : list (K * V)) : list K := d.*1.
Definition dict_values (d : list (K * V)) : list V := d.*2.
End Dict.

(** Modelled from the spec: [schemas.ApiEventBundle], which is not part of
    the sources: a mapping from event-type name to an ordered list of
    events, with [add_event], [add_events] and [empty]. *)
Definition ApiEventBundle := list (string * list Event).

Definition add_event (e : Event) (b : ApiEventBundle) : ApiEventBundle :=
  let k := event_discriminator e in
  match dict_get k b with
  | Some es => dict_set k (es ++ [e]) b
  | None => dict_set k [e] b
  end.

Definition add_events (es : list Event) (b : ApiEventBundle) : ApiEventBundle :=
  foldl (fun b e => add_event e b) b es.

Definition bundle_empty (b : ApiEventBundle) : bool :=
  match b with [] => true | _ => false end.

(** ** Objects and the store *)

(** References to the mutable objects of the program. *)
Definition tbl_ref := nat.   (* a handler table: dict[str, set[EventCallback]] *)
Definition cb_ref := nat.    (* an EventCallback *)
Definition run_ref := nat.   (* a MainRun *)

(** A handler table. *)
Abbreviation HandlerTable := (gmap string (list cb_ref)).

(** The three subclasses of [EventCallback], with their own fields. *)
Inductive CallbackKind :=
| BundleUpdatesEventCallback
    (event_id : Z) (runners : Z) (received_updates : Z) (success : bool)
    (update_event : ApiEventUpdate_U)
| RunFragmentStateCallback (run : run_ref)
| RunFragmentOutputArtifactCallback (run_id : Z).

(** class EventCallback *)
Record EventCallback := {
  handlers : list tbl_ref;
  event_type : string;
  kind : CallbackKind;
}.

(** class FragmentRunner.  [fr_ident] is the identity of the object (and of
    its plug-in); the fields below are never reassigned, so they make a
    value.  [read_task], which [_start_fragment_runner] assigns, is in the
    store, under [fr_ident]. *)
Record FragmentRunner := {
  fr_ident : nat;
  name : string;
  create_event_handlers : tbl_ref;
  update_event_handlers : tbl_ref;
  delete_event_handlers : tbl_ref;
  query_event_handlers : tbl_ref;
}.

#[global] Instance FragmentRunner_eq_dec : EqDecision FragmentRunner.
Proof. solve_decision. Defined.

(** class MainRun *)
Record MainRun := {
  run_id : Z;
  fragment_runner_map : list (Z * FragmentRunner);
  cancelled : bool;
  fragment_run_state : list (Z * RunState);
  run_state_callback : option cb_ref;
  output_artifact_callback : option cb_ref;
}.

(** MainRun.__init__ *)
Definition MainRun_init (run_id : Z) (fragment_runner_map : list (Z * FragmentRunner))
  : MainRun :=
  {| run_id := run_id;
     fragment_runner_map := fragment_runner_map;
     cancelled := false;
     fragment_run_state :=
       foldl (fun d fragment => dict_set fragment RS_SPAWNED d) []
             (dict_keys fragment_runner_map);
     run_state_callback := None;
     output_artifact_callback := None |}.

#[local] Set Warnings "-register-all".

(** A value read from a YAML file. *)
Inductive yaml :=
| YNull
| YStr (s : string)
| YList (l : list yaml)
| YDict (d : list (string * yaml)).

(** class FragmentExecutorConfiguration; the plug-in class is named by the
    module path it was loaded from. *)
Record FragmentExecutorConfiguration := {
  cfg_name : string;
  cfg_plugin : string;
  cfg_settings : list (string * yaml);
}.

(** Calls that leave the process, in the order in which they are made. *)
Inductive Action :=
| rc_update_events (b : ApiEventBundle)
| rc_create_events (b : ApiEventBundle)
| rc_delete_events (b : ApiEventBundle)
| rc_fetch_events (b : ApiEventBundle)
| rc_update_run (run_id : Z) (s : RunState) (msg : string)
| rc_send_heartbeat
| set_run_fragment_output_artifact_raw
    (run_fragment_id : Z) (stream_name : string) (data : list Byte.byte)
| get_inst_input_artifact_raw (inst : Z)
| get_fragment_input_artifact_raw (inst fragment : Z)
| plugin_start (plugin : string) (settings : list (string * yaml)) (parameters : string)
| plugin_send_events (r : nat) (b : ApiEventBundle) (t : ApiEventType)
| plugin_stop (r : nat).

(** The exceptions the runner can see.  [ExternalError] stands for whatever
    a collaborator raises (a parser, the backend client, a plug-in,
    [base64]); all are subclasses of [Exception].  [Dangling] is the use of
    a reference that the store does not hold, which Python cannot express. *)
Inductive exn :=
| AssertionError | KeyError | IndexError | AttributeError | RuntimeError
| ValidationError | ExternalError | Dangling.

#[global] Instance exn_eq_dec : EqDecision exn.
Proof. solve_decision. Defined.

(** The task of [_read_fragment_runner_events] for one runner, as [stop]
    meets it.  The coroutine loops for ever, so its task is never done with
    a result: it is pending, or it was cancelled, or the plug-in's
    [get_events] raised and the task is done with that exception. *)
Inductive TaskState :=
| Pending
| Cancelled
| Failed (e : exn).

(** class MainRunner, together with the store of the objects it reaches. *)
Record MainRunner := {
  _ident : Z;
  _fragment_executor_configs : list (string * FragmentExecutorConfiguration);
  _available_fragment_executors : list string;
  fragment_runners : list (string * list FragmentRunner);
  _run_map : list (Z * run_ref);
  (* the store *)
  tables : gmap tbl_ref HandlerTable;
  callbacks : gmap cb_ref EventCallback;
  runs : gmap run_ref MainRun;
  (* [read_task] of the fragment runners; no entry is Python's [None] *)
  read_tasks : gmap nat TaskState;
  next_ref : nat;
  (* calls made so far, oldest first *)
  trace : list Action;
}.

(** MainRunner.__init__ *)
Definition MainRunner_init (ident : Z) : MainRunner :=
  {| _ident := ident;
     _fragment_executor_configs := [];
     _available_fragment_executors := [];
     fragment_runners := [];
     _run_map := [];
     tables := ∅; callbacks := ∅; runs := ∅; read_tasks := ∅;
     next_ref := 0%nat;
     trace := [] |}.

(** ** Exceptions and the monad of methods *)

(** A method: it may change the runner, and either returns or raises.  What
    it changed before raising stays changed. *)
Definition M (A : Type) : Type := MainRunner -> MainRunner * (exn + A).

#[global] Instance M_ret : MRet M := fun A a s => (s, inr a).
#[global] Instance M_bind : MBind M := fun A B f m s =>
  match m s with
  | (s', inr a) => f a s'
  | (s', inl e) => (s', inl e)
  end.

Definition raise {A} (e : exn) : M A := fun s => (s, inl e).
Definition get_self : M MainRunner := fun s => (s, inr s).
Definition update_self (f : MainRunner -> MainRunner) : M unit := fun s => (f s, inr tt).

(** [try: m except Exception: h] *)
Definition try_except {A} (m : M A) (h : exn -> M A) : M A := fun s =>
  match m s with
  | (s', inr a) => (s', inr a)
  | (s', inl e) => h e s'
  end.

(** [for x in xs: body x] *)
Fixpoint for_each {A} (xs : list A) (body : A -> M unit) : M unit :=
  match xs with
  | [] => mret tt
  | x :: xs' => body x ;; for_each xs' body
  end.

(** [await asyncio.gather( *tasks )] on tasks that were created before:
    no task is cancelled when another one raises, so every task runs, here
    one after the other in the order of creation, and the first exception
    is what the [await] raises. *)
Fixpoint gather (tasks : list (M unit)) : M unit := fun s =>
  match tasks with
  | [] => (s, inr tt)
  | task :: tasks' =>
      match task s with
      | (s1, inr _) => gather tasks' s1
      | (s1, inl e) => ((gather tasks' s1).1, inl e)
      end
  end.

(** Field updates of the runner. *)
Definition with_tables (f : gmap tbl_ref HandlerTable -> gmap tbl_ref HandlerTable)
  (s : MainRunner) : MainRunner :=
  {| _ident := _ident s;
     _fragment_executor_configs := _fragment_executor_configs s;
     _available_fragment_executors := _available_fragment_executors s;
     fragment_runners := fragment_runners s;
     _run_map := _run_map s;
     tables := f (tables s); callbacks := callbacks s; runs := runs s;
     read_tasks := read_tasks s;
     next_ref := next_ref s; trace := trace s |}.

Definition with_callbacks (f : gmap cb_ref EventCallback -> gmap cb_ref EventCallback)
  (s : MainRunner) : MainRunner :=
  {| _ident := _ident s;
     _fragment_executor_configs := _fragment_executor_configs s;
     _available_fragment_executors := _available_fragment_executors s;
     fragment_runners := fragment_runners s;
     _run_map := _run_map s;
     tables := tables s; callbacks := f (callbacks s); runs := runs s;
     read_tasks := read_tasks s;
     next_ref := next_ref s; trace := trace s |}.

Definition with_runs (f : gmap run_ref MainRun -> gmap run_ref MainRun)
  (s : MainRunner) : MainRunner :=
  {| _ident := _ident s;
     _fragment_executor_configs := _fragment_executor_configs s;
     _available_fragment_executors := _available_fragment_executors s;
     fragment_runners := fragment_runners s;
     _run_map := _run_map s;
     tables := tables s; callbacks := callbacks s; runs := f (runs s);
     read_tasks := read_tasks s;
     next_ref := next_ref s; trace := trace s |}.

Definition with_run_map (f : list (Z * run_ref) -> list (Z * run_ref))
  (s : MainRunner) : MainRunner :=
  {| _ident := _ident s;
     _fragment_executor_configs := _fragment_executor_configs s;
     _available_fragment_executors := _available_fragment_executors s;
     fragment_runners := fragment_runners s;
     _run_map := f (_run_map s);
     tables := tables s; callbacks := callbacks s; runs := runs s;
     read_tasks := read_tasks s;
     next_ref := next_ref s; trace := trace s |}.

Definition with_fragment_runners
  (f : list (string * list FragmentRunner) -> list (string * list FragmentRunner))
  (s : MainRunner) : MainRunner :=
  {| _ident := _ident s;
     _fragment_executor_configs := _fragment_executor_configs s;
     _available_fragment_executors := _available_fragment_executors s;
     fragment_runners := f (fragment_runners s);
     _run_map := _run_map s;
     tables := tables s; callbacks := callbacks s; runs := runs s;
     read_tasks := read_tasks s;
     next_ref := next_ref s; trace := trace s |}.

Definition with_trace (f : list Action -> list Action) (s : MainRunner) : MainRunner :=
  {| _ident := _ident s;
     _fragment_executor_configs := _fragment_executor_configs s;
     _available_fragment_executors := _available_fragment_executors s;
     fragment_runners := fragment_runners s;
     _run_map := _run_map s;
     tables := tables s; callbacks := callbacks s; runs := runs s;
     read_tasks := read_tasks s;
     next_ref := next_ref s; trace := f (trace s) |}.

Definition with_configs (c : list (string * FragmentExecutorConfiguration))
  (a : list string) (s : MainRunner) : MainRunner :=
  {| _ident := _ident s;
     _fragment_executor_configs := c;
     _available_fragment_executors := a;
     fragment_runners := fragment_runners s;
     _run_map := _run_map s;
     tables := tables s; callbacks := callbacks s; runs := runs s;
     read_tasks := read_tasks s;
     next_ref := next_ref s; trace := trace s |}.

Definition with_next_ref (n : nat) (s : MainRunner) : MainRunner :=
  {| _ident := _ident s;
     _fragment_executor_configs := _fragment_executor_configs s;
     _available_fragment_executors := _available_fragment_executors s;
     fragment_runners := fragment_runners s;
     _run_map := _run_map s;
     tables := tables s; callbacks := callbacks s; runs := runs s;
     read_tasks := read_tasks s;
     next_ref := n; trace := trace s |}.

Definition with_read_tasks (f : gmap nat TaskState -> gmap nat TaskState)
  (s : MainRunner) : MainRunner :=
  {| _ident := _ident s;
     _fragment_executor_configs := _fragment_executor_configs s;
     _available_fragment_executors := _available_fragment_executors s;
     fragment_runners := fragment_runners s;
     _run_map := _run_map s;
     tables := tables s; callbacks := callbacks s; runs := runs s;
     read_tasks := f (read_tasks s);
     next_ref := next_ref s; trace := trace s |}.

(** A call that leaves the process and returns normally. *)
Definition call (a : Action) : M unit := update_self (with_trace (fun t => t ++ [a])).

(** A new object gets a reference nothing else has. *)
Definition fresh_ref : M nat := fun s => (with_next_ref (S (next_ref s)) s, inr (next_ref s)).

Definition load_table (h : tbl_ref) : M HandlerTable := fun s =>
  match tables s !! h with
  | Some t => (s, inr t)
  | None => (s, inl Dangling)
  end.

Definition load_callback (c : cb_ref) : M EventCallback := fun s =>
  match callbacks s !! c with
  | Some cb => (s, inr cb)
  | None => (s, inl Dangling)
  end.

Definition load_run (r : run_ref) : M MainRun := fun s =>
  match runs s !! r with
  | Some run => (s, inr run)
  | None => (s, inl Dangling)
  end.

Definition store_table (h : tbl_ref) (t : HandlerTable) : M unit :=
  update_self (with_tables (insert h t)).
Definition store_callback (c : cb_ref) (cb : EventCallback) : M unit :=
  update_self (with_callbacks (insert c cb)).
Definition store_run (r : run_ref) (run : MainRun) : M unit :=
  update_self (with_runs (insert r run)).

(** ** Python sets of objects *)

(** [s.add(x)] *)
Definition set_add {A} `{EqDecision A} (x : A) (s : list A) : list A :=
  if decide (x ∈ s) then s else s ++ [x].

(** [s.remove(x)]: [None] is Python's [KeyError]. *)
Definition set_remove {A} `{EqDecision A} (x : A) (s : list A) : option (list A) :=
  if decide (x ∈ s) then Some (filter (fun y => y ≠ x) s) else None.

(** ** class EventCallback *)

(** EventCallback.__init__: the body of the loop, then the constructor,
    which returns the reference of the new object. *)
Definition register_in (c : cb_ref) (event_type : string) (handler : tbl_ref) : M unit :=
  t ← load_table handler;
  let hs := default [] (t !! event_type) in
  store_table handler (<[event_type := set_add c hs]> t).

Definition EventCallback_init (handlers : list tbl_ref) (event_type : string)
  (kind : CallbackKind) : M cb_ref :=
  c ← fresh_ref;
  store_callback c {| handlers := handlers; event_type := event_type; kind := kind |};;
  for_each handlers (register_in c event_type);;
  mret c.

(** EventCallback.remove_callback: the body of the loop, then the method. *)
Definition unregister_from (c : cb_ref) (event_type : string) (handler : tbl_ref) : M unit :=
  t ← load_table handler;
  match t !! event_type with
  | None => raise KeyError
  | Some hs =>
      match set_remove c hs with
      | None => raise KeyError
      | Some hs' => store_table handler (<[event_type := hs']> t)
      end
  end.

Definition remove_callback (c : cb_ref) : M unit :=
  cb ← load_callback c;
  for_each (handlers cb) (unregister_from c (event_type cb)).

(** ** Collaborators *)

(** What the parsers of the orchestration package make of the three JSON
    payloads of a start-run event, as far as the runner looks at it. *)
Record Fragment := {
  fragment_id : Z;
  _parameters : string;
  fragment_input_artifact_paths : list string;
}.

Record Instantiation := {
  inst_fragments : list Fragment;
  input_artifact_paths : list string;
}.

(** The outcomes of the calls whose result the runner uses.  In the first
    six, [None] and [false] stand for a raised exception; the last three are
    the replies of the backend, [None] being Python's [None]. *)
Record External := {
  b64decode : string -> option (list Byte.byte);
  b64encode : list Byte.byte -> string;
  fromJSON : string -> string -> string -> option Instantiation;
  inst_input_artifact_raw : Z -> option (list Byte.byte);
  fragment_input_artifact_raw : Z -> Z -> option (list Byte.byte);
  plugin_starts : string -> list (string * yaml) -> string -> bool;
  load_plugin : string -> bool;
  created_events : ApiEventBundle -> option ApiEventBundle;
  updated_events : ApiEventBundle -> option ApiEventBundle;
  fetched_events : ApiEventBundle -> option ApiEventBundle;
}.

(** [passthrough()] of the three subclasses. *)
Definition passthrough (self : EventCallback) : bool :=
  match kind self with
  | BundleUpdatesEventCallback _ _ _ _ _ => false
  | RunFragmentStateCallback _ => true
  | RunFragmentOutputArtifactCallback _ => false
  end.

Definition with_kind (k : CallbackKind) (self : EventCallback) : EventCallback :=
  {| handlers := handlers self; event_type := event_type self; kind := k |}.

Definition with_fragment_run_state (d : list (Z * RunState)) (run : MainRun) : MainRun :=
  {| run_id := run_id run;
     fragment_runner_map := fragment_runner_map run;
     cancelled := cancelled run;
     fragment_run_state := d;
     run_state_callback := run_state_callback run;
     output_artifact_callback := output_artifact_callback run |}.

Section Runner.
Context (ext : External).

(** [callback(event)] of the three subclasses; [c] is [self].  Only an
    update event has the [id] and [event_status] that the first one
    reads. *)
Definition callback (c : cb_ref) (event : Event) : M bool :=
  self ← load_callback c;
  match kind self with
  | BundleUpdatesEventCallback event_id runners received_updates success update_event =>
      match event with
      | EUpdate u =>
          if decide (event_id ≠ upd_id u) then mret false
          else if negb (received_updates <? runners) then raise AssertionError
          else
            let received_updates := received_updates + 1 in
            let success :=
              if decide (upd_event_status u ≠ Some COMPLETED) then false else success in
            store_callback c
              (with_kind (BundleUpdatesEventCallback
                            event_id runners received_updates success update_event) self);;
            if decide (received_updates = runners) then
              let update_event :=
                set_event_status (if success then COMPLETED else ERROR) update_event in
              store_callback c
                (with_kind (BundleUpdatesEventCallback
                              event_id runners received_updates success update_event) self);;
              call (rc_update_events (add_event (EUpdate update_event) []));;
              remove_callback c;;
              mret true
            else mret true
      | _ => raise AttributeError
      end
  | RunFragmentStateCallback run =>
      match event with
      | ERunFragmentStateCreate ev_run_id run_fragment_id run_state =>
          r ← load_run run;
          if decide (ev_run_id ≠ run_id r) then mret false
          else
            store_run run
              (with_fragment_run_state
                 (dict_set run_fragment_id run_state (fragment_run_state r)) r);;
            mret true
      | _ => raise AssertionError
      end
  | RunFragmentOutputArtifactCallback run_id =>
      match event with
      | ERunFragmentOutputArtifactCreate ev_run_id run_fragment_id
          output_artifact output_artifact_name =>
          if decide (ev_run_id ≠ run_id) then mret false
          else
            match b64decode ext output_artifact with
            | None => raise ExternalError
            | Some data =>
                call (set_run_fragment_output_artifact_raw
                        run_fragment_id output_artifact_name data);;
                mret true
            end
      | _ => raise AssertionError
      end
  end.

(** ** MainRunner._apply_callbacks *)

(** [for callback in callbacks[event_type]: ...]: [Some p] when a callback
    returned true and the loop was left, [p] being its [passthrough()];
    [None] when the loop ran to its [else]. *)
Fixpoint first_match (cbs : list cb_ref) (event : Event) : M (option bool) :=
  match cbs with
  | [] => mret None
  | c :: cbs' =>
      r ← callback c event;
      if r : bool then (self ← load_callback c; mret (Some (passthrough self)))
      else first_match cbs' event
  end.

(** The body of [for event in events]. *)
Definition apply_to_event (callbacks : tbl_ref) (event_type : string)
  (passthrough_events : ApiEventBundle) (event : Event) : M ApiEventBundle :=
  t ← load_table callbacks;
  match t !! event_type with
  | None => raise KeyError
  | Some cbs =>
      m ← first_match cbs event;
      match m with
      | Some false => mret passthrough_events
      | Some true | None => mret (add_event event passthrough_events)
      end
  end.

Fixpoint apply_to_events (callbacks : tbl_ref) (event_type : string)
  (passthrough_events : ApiEventBundle) (events : list Event) : M ApiEventBundle :=
  match events with
  | [] => mret passthrough_events
  | event :: events' =>
      p ← apply_to_event callbacks event_type passthrough_events event;
      apply_to_events callbacks event_type p events'
  end.

(** The body of [for event_type, events in event_bundle.events.items()]. *)
Definition apply_to_type (callbacks : tbl_ref) (passthrough_events : ApiEventBundle)
  (item : string * list Event) : M ApiEventBundle :=
  let '(event_type, events) := item in
  t ← load_table callbacks;
  if decide (is_Some (t !! event_type))
  then apply_to_events callbacks event_type passthrough_events events
  else mret (add_events events passthrough_events).

Fixpoint apply_to_types (callbacks : tbl_ref) (passthrough_events : ApiEventBundle)
  (items : list (string * list Event)) : M ApiEventBundle :=
  match items with
  | [] => mret passthrough_events
  | item :: items' =>
      p ← apply_to_type callbacks passthrough_events item;
      apply_to_types callbacks p items'
  end.

Definition _apply_callbacks (event_bundle : ApiEventBundle) (callbacks : tbl_ref)
  : M ApiEventBundle :=
  apply_to_types callbacks [] event_bundle.

(** ** class FragmentRunner *)

(** FragmentRunner.__init__: four empty handler tables of its own. *)
Definition new_table : M tbl_ref :=
  h ← fresh_ref; store_table h ∅;; mret h.

Definition FragmentRunner_init (name : string) : M FragmentRunner :=
  i ← fresh_ref;
  c ← new_table; u ← new_table; d ← new_table; q ← new_table;
  mret {| fr_ident := i; name := name;
          create_event_handlers := c; update_event_handlers := u;
          delete_event_handlers := d; query_event_handlers := q |}.

(** [self.read_task.cancel()], then [await self.read_task] inside
    [try: ... except asyncio.CancelledError: pass].  A pending task is
    cancelled, and awaiting a cancelled task raises [CancelledError], which
    is swallowed; [cancel()] does nothing to a task that is done, and
    awaiting a task that has failed raises its exception again. *)
Definition cancel_read_task (self : FragmentRunner) : M unit :=
  s ← get_self;
  match read_tasks s !! fr_ident self with
  | None => raise AttributeError
  | Some Pending => update_self (with_read_tasks (insert (fr_ident self) Cancelled))
  | Some Cancelled => mret tt
  | Some (Failed e) => raise e
  end.

(** FragmentRunner.stop *)
Definition stop (self : FragmentRunner) : M unit :=
  store_table (create_event_handlers self) ∅;;
  store_table (update_event_handlers self) ∅;;
  store_table (delete_event_handlers self) ∅;;
  store_table (query_event_handlers self) ∅;;
  cancel_read_task self;;
  call (plugin_stop (fr_ident self)).

(** ** MainRunner *)

(** [self.fragment_runners[runner.name].remove(runner)] *)
Definition forget_runner (runner : FragmentRunner) : M unit :=
  s ← get_self;
  match dict_get (name runner) (fragment_runners s) with
  | None => raise KeyError
  | Some rs =>
      match set_remove runner rs with
      | None => raise KeyError
      | Some rs' => update_self (with_fragment_runners (dict_set (name runner) rs'))
      end
  end.

(** MainRunner._stop_fragment_runners: the loop creates the stop tasks and
    updates [fragment_runners]; the tasks run when they are gathered. *)
Definition _stop_fragment_runners (fragment_runner_map : list (Z * FragmentRunner))
  : M unit :=
  for_each (dict_values fragment_runner_map) forget_runner;;
  gather (stop <$> dict_values fragment_runner_map).

(** MainRunner._start_fragment_runner *)
Definition _start_fragment_runner (name : string) (parameters : string)
  : M FragmentRunner :=
  s ← get_self;
  match dict_get name (_fragment_executor_configs s) with
  | None => raise AssertionError
  | Some config =>
      call (plugin_start (cfg_plugin config) (cfg_settings config) parameters);;
      if plugin_starts ext (cfg_plugin config) (cfg_settings config) parameters then
        fragment_runner ← FragmentRunner_init name;
        update_self (with_read_tasks (insert (fr_ident fragment_runner) Pending));;
        s ← get_self;
        match dict_get name (fragment_runners s) with
        | None => raise KeyError
        | Some rs =>
            update_self
              (with_fragment_runners (dict_set name (set_add fragment_runner rs)));;
            mret fragment_runner
        end
      else raise ExternalError
  end.

(** The executor tag of a run fragment, as the first loop of [_start_run]
    resolves it; the [elif] branch stops the runners started so far. *)
Definition resolve_executor_tag (fragment_runner_map : list (Z * FragmentRunner))
  (rf : RunFragmentRead) : M string :=
  s ← get_self;
  match rf_fragment_executor_tag rf with
  | None =>
      match _available_fragment_executors s with
      | [] => raise IndexError
      | first :: _ => mret first
      end
  | Some tag =>
      if dict_mem tag (_fragment_executor_configs s) then mret tag
      else (_stop_fragment_runners fragment_runner_map;; raise RuntimeError)
  end.

(** The first loop of [_start_run]. *)
Fixpoint start_fragment_runners (parameters_map : list (Z * string))
  (fragment_runner_map : list (Z * FragmentRunner)) (rfs : list RunFragmentRead)
  : M (list (Z * FragmentRunner)) :=
  match rfs with
  | [] => mret fragment_runner_map
  | rf :: rfs' =>
      fragment_executor_tag ← resolve_executor_tag fragment_runner_map rf;
      match dict_get (rf_fragment_object_id rf) parameters_map with
      | None => raise KeyError
      | Some parameters =>
          fragment_runner ← _start_fragment_runner fragment_executor_tag parameters;
          start_fragment_runners parameters_map
            (dict_set (rf_id rf) fragment_runner fragment_runner_map) rfs'
      end
  end.

Definition with_callbacks_of_run (st ar : option cb_ref) (run : MainRun) : MainRun :=
  {| run_id := run_id run;
     fragment_runner_map := fragment_runner_map run;
     cancelled := cancelled run;
     fragment_run_state := fragment_run_state run;
     run_state_callback := st;
     output_artifact_callback := ar |}.

Definition with_start (p : StartRunPayload) (e : ApiRunEventRead) : ApiRunEventRead :=
  {| re_id := re_id e; re_run_id := re_run_id e;
     re_run_event_type := re_run_event_type e;
     re_event_discriminator := re_event_discriminator e;
     re_start := Some p |}.

(** The event sent to the executor of [rf]: a copy of the start event with
    [rf] as its only fragment and the artifacts attached. *)
Definition fragment_event (event : ApiRunEventRead) (p : StartRunPayload)
  (rf : RunFragmentRead) (inst_artifact fragment_artifact : option (list Byte.byte))
  : ApiRunEventRead :=
  with_start
    {| system_sb_json := system_sb_json p;
       simulation_sb_json := simulation_sb_json p;
       inst_sb_json := inst_sb_json p;
       inst_id := inst_id p;
       fragments := [rf];
       inst_input_artifact :=
         match inst_artifact with
         | Some a => Some (b64encode ext a)
         | None => inst_input_artifact p
         end;
       fragment_input_artifact :=
         match fragment_artifact with
         | Some a => Some (b64encode ext a)
         | None => fragment_input_artifact p
         end |} event.

(** The send tasks in [senders] run: [await asyncio.gather( *senders )],
    or an earlier [await] that lets the tasks created so far run. *)
Definition gather_senders (senders : list (FragmentRunner * ApiEventBundle)) : M unit :=
  for_each senders
    (fun '(runner, b) => call (plugin_send_events (fr_ident runner) b ApiEventRead)).

(** The second loop of [_start_run]: one send task per fragment.  A task
    runs at the first [await] after it was created: the fetch of the input
    artifact of a later fragment, or the [gather] after the loop.  [created]
    holds the tasks that have not run yet, oldest first; the result is what
    is left for the [gather]. *)
Fixpoint prepare_senders (event : ApiRunEventRead) (p : StartRunPayload)
  (sb_inst : Instantiation) (inst_artifact : option (list Byte.byte))
  (fragment_runner_map : list (Z * FragmentRunner))
  (created : list (FragmentRunner * ApiEventBundle)) (rfs : list RunFragmentRead)
  : M (list (FragmentRunner * ApiEventBundle)) :=
  match rfs with
  | [] => mret created
  | rf :: rfs' =>
      match find (fun f => bool_decide (fragment_id f = rf_fragment_object_id rf))
                 (inst_fragments sb_inst) with
      | None => raise ExternalError
      | Some fragment =>
          fetched ←
            match fragment_input_artifact_paths fragment with
            | [] => mret (created, None)
            | _ :: _ =>
                call (get_fragment_input_artifact_raw (inst_id p) (rf_fragment_id rf));;
                gather_senders created;;
                match fragment_input_artifact_raw ext (inst_id p) (rf_fragment_id rf) with
                | None => raise ExternalError
                | Some a => mret ([], Some a)
                end
            end;
          let event_bundle :=
            add_event (ERunRead (fragment_event event p rf inst_artifact fetched.2))
                      [] in
          match dict_get (rf_id rf) fragment_runner_map with
          | None => raise KeyError
          | Some runner =>
              prepare_senders event p sb_inst inst_artifact fragment_runner_map
                (fetched.1 ++ [(runner, event_bundle)]) rfs'
          end
      end
  end.

(** MainRunner._start_run *)
Definition _start_run (run_id : Z) (event : ApiRunEventRead) (p : StartRunPayload)
  (update : ApiEventUpdate_U) : M unit :=
  match fromJSON ext (system_sb_json p) (simulation_sb_json p) (inst_sb_json p) with
  | None => raise ExternalError
  | Some sb_inst =>
      let parameters_map :=
        foldl (fun d f => dict_set (fragment_id f) (_parameters f) d) []
              (inst_fragments sb_inst) in
      inst_artifact ←
        match input_artifact_paths sb_inst with
        | [] => mret None
        | _ :: _ =>
            call (get_inst_input_artifact_raw (inst_id p));;
            match inst_input_artifact_raw ext (inst_id p) with
            | None => raise ExternalError
            | Some a => mret (Some a)
            end
        end;
      fragment_runner_map ← start_fragment_runners parameters_map [] (fragments p);
      run ← fresh_ref;
      store_run run (MainRun_init run_id fragment_runner_map);;
      update_self (with_run_map (dict_set run_id run));;
      EventCallback_init
        (update_event_handlers <$> dict_values fragment_runner_map)
        "ApiRunEventUpdate"
        (BundleUpdatesEventCallback
           (re_id event) (Z.of_nat (length fragment_runner_map)) 0 true update);;
      let handlers := create_event_handlers <$> dict_values fragment_runner_map in
      st ← EventCallback_init handlers "ApiRunFragmentStateEventCreate"
             (RunFragmentStateCallback run);
      r ← load_run run;
      store_run run (with_callbacks_of_run (Some st) (output_artifact_callback r) r);;
      ar ← EventCallback_init handlers "ApiRunFragmentOutputArtifactEventCreate"
             (RunFragmentOutputArtifactCallback run_id);
      r ← load_run run;
      store_run run (with_callbacks_of_run (run_state_callback r) (Some ar) r);;
      senders ← prepare_senders event p sb_inst inst_artifact fragment_runner_map []
                  (fragments p);
      gather_senders senders
  end.

(** MainRunner._send_events_aggregate_updates *)
Definition _send_events_aggregate_updates (run_id : Z) (event : ApiRunEventRead)
  (event_type : string) (update : ApiEventUpdate_U) : M unit :=
  s ← get_self;
  match dict_get run_id (_run_map s) with
  | None => raise KeyError
  | Some r =>
      run ← load_run r;
      let runners := dict_values (fragment_runner_map run) in
      EventCallback_init (update_event_handlers <$> runners) event_type
        (BundleUpdatesEventCallback
           (re_id event) (Z.of_nat (length (fragment_runner_map run))) 0 true update);;
      let event_bundle := add_event (ERunRead event) [] in
      gather_senders ((fun runner => (runner, event_bundle)) <$> runners)
  end.

(** The body of the loop of [_handle_run_events]; [updates] is handed on. *)
Definition handle_run_event (updates : ApiEventBundle) (ev : Event) : M ApiEventBundle :=
  match ev with
  | ERunRead event =>
      s ← get_self;
      let update :=
        {| upd_discriminator := "ApiRunEventUpdate";
           upd_id := re_id event; upd_runner_id := _ident s;
           upd_run_id := re_run_id event; upd_event_status := None |} in
      match re_run_id event with
      | None => raise AssertionError
      | Some run_id =>
          match re_run_event_type event with
          | KILL | SIMULATION_STATUS =>
              if negb (dict_mem run_id (_run_map s)) then
                mret (add_event (EUpdate (set_event_status CANCELLED update)) updates)
              else
                _send_events_aggregate_updates run_id event "ApiRunEventUpdate" update;;
                mret updates
          | START_RUN =>
              if negb (bool_decide
                         (re_event_discriminator event = "ApiRunEventStartRunRead"))
              then raise AssertionError
              else
                match re_start event with
                | None => raise ValidationError
                | Some p =>
                    if dict_mem run_id (_run_map s) then
                      mret (add_event (EUpdate (set_event_status CANCELLED update))
                                      updates)
                    else
                      try_except
                        (_start_run run_id event p update;; mret updates)
                        (fun _ =>
                           call (rc_update_run run_id RS_ERROR "");;
                           mret (add_event (EUpdate (set_event_status ERROR update))
                                           updates))
                end
          end
      end
  | _ => raise ValidationError
  end.

(** MainRunner._handle_run_events *)
Fixpoint _handle_run_events (events : list Event) (updates : ApiEventBundle)
  : M ApiEventBundle :=
  match events with
  | [] => mret updates
  | event :: events' =>
      updates' ← handle_run_event updates event;
      _handle_run_events events' updates'
  end.

(** MainRunner._handle_runner_events *)
Definition handle_runner_event (updates : ApiEventBundle) (ev : Event) : M ApiEventBundle :=
  match ev with
  | ERunnerRead event =>
      s ← get_self;
      let update :=
        {| upd_discriminator := "ApiRunnerEventUpdate";
           upd_id := rn_id event; upd_runner_id := _ident s;
           upd_run_id := None; upd_event_status := None |} in
      if rn_heartbeat event then
        call rc_send_heartbeat;;
        mret (add_event (EUpdate (set_event_status COMPLETED update)) updates)
      else mret (add_event (EUpdate update) updates)
  | _ => raise ValidationError
  end.

Fixpoint _handle_runner_events (events : list Event) (updates : ApiEventBundle)
  : M ApiEventBundle :=
  match events with
  | [] => mret updates
  | event :: events' =>
      updates' ← handle_runner_event updates event;
      _handle_runner_events events' updates'
  end.

(** ** MainRunner._handel_events: one turn of its loop *)

(** The inner [for ... else] of the sweep: no fragment state is below
    [COMPLETED]. *)
Definition all_fragments_finished (run : MainRun) : bool :=
  forallb (fun fragment_state => negb (RunState_ltb fragment_state RS_COMPLETED))
          (dict_values (fragment_run_state run)).

Definition remove_if_set (c : option cb_ref) : M unit :=
  match c with
  | Some c => remove_callback c
  | None => mret tt
  end.

(** The [else] branch of the sweep. *)
Definition tear_down (run_id : Z) (run : MainRun) : M unit :=
  remove_if_set (run_state_callback run);;
  remove_if_set (output_artifact_callback run);;
  _stop_fragment_runners (fragment_runner_map run);;
  update_self (with_run_map (dict_del run_id)).

(** The body of [for run_id in list(self._run_map.keys())]. *)
Definition sweep_run (run_id : Z) : M unit :=
  s ← get_self;
  match dict_get run_id (_run_map s) with
  | None => raise KeyError
  | Some r =>
      run ← load_run r;
      if all_fragments_finished run then tear_down run_id run else mret tt
  end.

Definition sweep : M unit :=
  s ← get_self;
  for_each (dict_keys (_run_map s)) sweep_run.

(** The three queries of a turn. *)
Definition event_query_bundle : ApiEventBundle :=
  add_event (EOther "ApiRunEventStartRunQuery")
    (add_event (EOther "ApiRunEventQuery")
       (add_event (EOther "ApiRunnerEventQuery") [])).

(** The body of [for key in fetched_events_bundle.events.keys()]. *)
Definition dispatch_fetched (updates : ApiEventBundle) (item : string * list Event)
  : M ApiEventBundle :=
  let '(key, events) := item in
  if bool_decide (key = "ApiRunnerEventRead") then _handle_runner_events events updates
  else if bool_decide (key = "ApiRunEventStartRunRead")
          || bool_decide (key = "ApiRunEventRead")
  then _handle_run_events events updates
  else mret updates.

Fixpoint dispatch_all (updates : ApiEventBundle) (items : list (string * list Event))
  : M ApiEventBundle :=
  match items with
  | [] => mret updates
  | item :: items' =>
      updates' ← dispatch_fetched updates item;
      dispatch_all updates' items'
  end.

(** One turn of the loop of [_handel_events], up to the sleep; [fetched] is
    what the backend answers to the queries. *)
Definition _handel_events_turn (fetched : ApiEventBundle) : M unit :=
  sweep;;
  call (rc_fetch_events event_query_bundle);;
  update_events_bundle ← dispatch_all [] fetched;
  if bundle_empty update_events_bundle then mret tt
  else call (rc_update_events update_events_bundle).

(** ** MainRunner._handle_fragment_runner_events: one turn of its loop *)

Definition _handle_fragment_runner_events_turn (fragment_runner : FragmentRunner)
  (event_type : ApiEventType) (event_bundle : ApiEventBundle) : M unit :=
  read_events ←
    match event_type with
    | ApiEventCreate =>
        p ← _apply_callbacks event_bundle (create_event_handlers fragment_runner);
        if bundle_empty p then mret None
        else (call (rc_create_events p);; mret (created_events ext p))
    | ApiEventUpdate =>
        p ← _apply_callbacks event_bundle (update_event_handlers fragment_runner);
        if bundle_empty p then mret None
        else (call (rc_update_events p);; mret (updated_events ext p))
    | ApiEventDelete =>
        p ← _apply_callbacks event_bundle (delete_event_handlers fragment_runner);
        if bundle_empty p then mret None
        else (call (rc_delete_events p);; mret None)
    | ApiEventQuery =>
        p ← _apply_callbacks event_bundle (query_event_handlers fragment_runner);
        if bundle_empty p then mret None
        else (call (rc_fetch_events p);; mret (fetched_events ext p))
    | ApiEventRead => raise RuntimeError
    end;
  match read_events with
  | Some r =>
      if bundle_empty r then mret tt
      else call (plugin_send_events (fr_ident fragment_runner) r ApiEventRead)
  | None => mret tt
  end.

(** ** MainRunner._load_configuration *)

(** The body of [for executor in executors]; [loaded_plugins] is handed
    on. *)
Definition load_executor (loaded_plugins : list string) (executor : yaml)
  : M (list string) :=
  match executor with
  | YDict [(executor_name, YDict executor_data)] =>
      match dict_get "plugin" executor_data with
      | None => raise RuntimeError
      | Some plugin =>
          settings ←
            match dict_get "settings" executor_data with
            | None => mret []
            | Some (YDict d) => mret d
            | Some _ => raise RuntimeError
            end;
          match plugin with
          | YStr plugin =>
              loaded_plugins ←
                (if decide (plugin ∈ loaded_plugins) then mret loaded_plugins
                 else if load_plugin ext plugin then mret (loaded_plugins ++ [plugin])
                 else raise ExternalError);
              s ← get_self;
              if dict_mem executor_name (_fragment_executor_configs s) then raise KeyError
              else
                update_self
                  (with_configs
                     (dict_set executor_name
                        {| cfg_name := executor_name; cfg_plugin := plugin;
                           cfg_settings := settings |}
                        (_fragment_executor_configs s))
                     (_available_fragment_executors s ++ [executor_name]));;
                mret loaded_plugins
          | _ => raise ExternalError
          end
      end
  | _ => raise RuntimeError
  end.

Fixpoint load_executors (loaded_plugins : list string) (executors : list yaml) : M unit :=
  match executors with
  | [] => mret tt
  | executor :: executors' =>
      loaded_plugins' ← load_executor loaded_plugins executor;
      load_executors loaded_plugins' executors'
  end.

(** [configuration] is what [yaml.load] made of the file. *)
Definition _load_configuration (configuration : yaml) : M unit :=
  match configuration with
  | YNull => raise AssertionError
  | YDict d =>
      match dict_get "fragment_executors" d with
      | Some (YList executors) =>
          load_executors [] executors;;
          s ← get_self;
          for_each (_available_fragment_executors s)
            (fun fragment_executor =>
               update_self (with_fragment_runners (dict_set fragment_executor [])))
      | _ => raise RuntimeError
      end
  | _ => raise RuntimeError
  end.

End Runner.

(** ** A concrete world, to run the runner in *)

(** Base64 with the standard alphabet and padding (RFC 4648), on which
    Python's [base64] agrees for canonical input. *)
Module Base64.

Definition alphabet : list ascii :=
  list_ascii_of_string
    "ABCDEFGHIJKLMNOPQRSTUVWXYZabcdefghijklmnopqrstuvwxyz0123456789+/".

Fixpoint index_of (a : ascii) (l : list ascii) (i : N) : option N :=
  match l with
  | [] => None
  | x :: l' => if Ascii.eqb a x then Some i else index_of a l' (N.succ i)
  end.

Definition value (a : ascii) : option N := index_of a alphabet 0%N.

Definition digit (n : N) : ascii := nth (N.to_nat n) alphabet "="%char.

Definition byte_of_N (n : N) : Byte.byte :=
  match Byte.of_N (n mod 256) with
  | Some b => b
  | None => Byte.x00
  end.

Definition pad : ascii := "="%char.

Fixpoint decode_list (l : list ascii) : option (list Byte.byte) :=
  match l with
  | [] => Some []
  | a :: b :: c :: d :: rest =>
      match value a, value b with
      | Some va, Some vb =>
          let b1 := byte_of_N (va * 4 + vb / 16) in
          if Ascii.eqb c pad then
            if Ascii.eqb d pad
            then match rest with [] => Some [b1] | _ => None end
            else None
          else
            match value c with
            | Some vc =>
                let b2 := byte_of_N ((vb mod 16) * 16 + vc / 4) in
                if Ascii.eqb d pad
                then match rest with [] => Some [b1; b2] | _ => None end
                else
                  match value d, decode_list rest with
                  | Some vd, Some bs =>
                      Some (b1 :: b2 :: byte_of_N ((vc mod 4) * 64 + vd) :: bs)
                  | _, _ => None
                  end
            | None => None
            end
      | _, _ => None
      end
  | _ => None
  end.

Definition decode (s : string) : option (list Byte.byte) :=
  decode_list (list_ascii_of_string s).

Fixpoint encode_list (l : list Byte.byte) : list ascii :=
  match l with
  | [] => []
  | [x] =>
      let n := Byte.to_N x in
      [digit (n / 4); digit ((n mod 4) * 16); pad; pad]
  | [x; y] =>
      let n := Byte.to_N x in
      let m := Byte.to_N y in
      [digit (n / 4); digit ((n mod 4) * 16 + m / 16); digit ((m mod 16) * 4); pad]
  | x :: y :: z :: rest =>
      let n := Byte.to_N x in
      let m := Byte.to_N y in
      let k := Byte.to_N z in
      digit (n / 4) :: digit ((n mod 4) * 16 + m / 16)
        :: digit ((m mod 16) * 4 + k / 64) :: digit (k mod 64) :: encode_list rest
  end.

Definition encode (l : list Byte.byte) : string :=
  string_of_list_ascii (encode_list l).

End Base64.

(** The instantiation that the example parser reads from every payload: two
    fragments, the second of which has an input artifact. *)
Definition example_instantiation : Instantiation :=
  {| inst_fragments :=
       [ {| fragment_id := 1; _parameters := "p1"; fragment_input_artifact_paths := [] |};
         {| fragment_id := 2; _parameters := "p2";
            fragment_input_artifact_paths := ["in.tar"] |} ];
     input_artifact_paths := [] |}.

(** A world in which payloads parse unless the instantiation is the empty
    string, plug-ins start and load, and the backend has the input artifact
    of fragment 20 only. *)
Definition example_world : External :=
  {| b64decode := Base64.decode;
     b64encode := Base64.encode;
     fromJSON := fun _ _ inst =>
       if decide (inst = "") then None else Some example_instantiation;
     inst_input_artifact_raw := fun _ => None;
     fragment_input_artifact_raw := fun _ fragment =>
       if decide (fragment = 20) then Some [Byte.x68; Byte.x69] else None;
     plugin_starts := fun _ _ _ => true;
     load_plugin := fun _ => true;
     created_events := fun _ => None;
     updated_events := fun _ => None;
     fetched_events := fun _ => None |}.

(** The configuration file of the examples: executors [local] and [docker]. *)
Definition example_executors : list yaml :=
  [ YDict [("local", YDict [("plugin", YStr "plugins.local")])];
    YDict [("docker", YDict [("plugin", YStr "plugins.docker");
                              ("settings", YDict [])])] ].

Definition example_configuration : yaml :=
  YDict [("fragment_executors", YList example_executors)].

(** The runner after it has loaded the example configuration. *)
Definition example_runner : MainRunner :=
  (_load_configuration example_world example_configuration (MainRunner_init 1)).1.

(** An example store: one handler table (reference 0) and a callback
    (reference 1) registered in it under the key [ApiRunEventUpdate]. *)
Definition store_with_table : MainRunner :=
  (new_table (MainRunner_init 1)).1.

Definition example_update : ApiEventUpdate_U :=
  {| upd_discriminator := "ApiRunEventUpdate"; upd_id := 5; upd_runner_id := 1;
     upd_run_id := Some 7; upd_event_status := None |}.

Definition store_with_callback : MainRunner :=
  (EventCallback_init [0%nat] "ApiRunEventUpdate"
     (BundleUpdatesEventCallback 5 1 0 true example_update) store_with_table).1.

(** A start-run event for run 7 with two fragments: 10 without a tag and 11
    for [docker]; the backend has the input artifact of fragment 20. *)
Definition example_fragment (id object : Z) (tag : option string) : RunFragmentRead :=
  {| rf_id := id; rf_fragment_id := 20; rf_fragment_object_id := object;
     rf_fragment_executor_tag := tag |}.

Definition example_payload (rfs : list RunFragmentRead) : StartRunPayload :=
  {| system_sb_json := "{}"; simulation_sb_json := "{}"; inst_sb_json := "{}";
     inst_id := 3; fragments := rfs;
     inst_input_artifact := None; fragment_input_artifact := None |}.

Definition example_start_event (rfs : list RunFragmentRead) : ApiRunEventRead :=
  {| re_id := 5; re_run_id := Some 7; re_run_event_type := START_RUN;
     re_event_discriminator := "ApiRunEventStartRunRead";
     re_start := Some (example_payload rfs) |}.

(** The example runner after it has handled that event: run 7 is in the
    registry; the runner of fragment 10 has the tables 1 to 4 (create,
    update, delete, query), that of fragment 11 the tables 6 to 9; the
    callbacks are 11 (aggregator), 12 (state) and 13 (artifact). *)
Definition started_runner : MainRunner :=
  (_handle_run_events example_world
     [ERunRead (example_start_event
                  [example_fragment 10 1 None; example_fragment 11 2 (Some "docker")])]
     [] example_runner).1.

(** What an executor of run 7 may send in a create bundle: a state event
    and an output artifact of the run, and an event of a type for which the
    table has no entry. *)
Definition example_artifact_event : Event :=
  ERunFragmentOutputArtifactCreate 7 10 "aGVsbG8=" "out.bin".

Definition example_create_bundle : ApiEventBundle :=
  [("ApiRunFragmentStateEventCreate", [ERunFragmentStateCreate 7 10 RS_RUNNING]);
   ("ApiRunFragmentOutputArtifactEventCreate", [example_artifact_event]);
   ("ApiProxyStateEventCreate", [EOther "ApiProxyStateEventCreate"])].


(** The two fragment runners of run 7 in the example, and the run itself
    once both fragments have reported a final state. *)
Definition runner_of_fragment_10 : FragmentRunner :=
  {| fr_ident := 0%nat; name := "local";
     create_event_handlers := 1%nat; update_event_handlers := 2%nat;
     delete_event_handlers := 3%nat; query_event_handlers := 4%nat |}.

Definition runner_of_fragment_11 : FragmentRunner :=
  {| fr_ident := 5%nat; name := "docker";
     create_event_handlers := 6%nat; update_event_handlers := 7%nat;
     delete_event_handlers := 8%nat; query_event_handlers := 9%nat |}.

Definition finished_run : MainRun :=
  {| run_id := 7;
     fragment_runner_map := [(10, runner_of_fragment_10); (11, runner_of_fragment_11)];
     cancelled := false;
     fragment_run_state := [(10, RS_COMPLETED); (11, RS_ERROR)];
     run_state_callback := Some 12%nat;
     output_artifact_callback := Some 13%nat |}.


Definition started_run : MainRun :=
  {| run_id := 7;
     fragment_runner_map := [(10, runner_of_fragment_10); (11, runner_of_fragment_11)];
     cancelled := false;
     fragment_run_state := [(10, RS_SPAWNED); (11, RS_SPAWNED)];
     run_state_callback := Some 12%nat;
     output_artifact_callback := Some 13%nat |}.

(** ** Vocabulary of the properties *)

(** The callback [c] is in the set under [event_type] of the table [h]. *)
Definition registered_at (s : MainRunner) (c : cb_ref) (event_type : string)
  (h : tbl_ref) : Prop :=
  exists t l, tables s !! h = Some t /\ t !! event_type = Some l /\ c ∈ l.

(** The table [h] has a set under [event_type], and [c] is not in it. *)
Definition removed_at (s : MainRunner) (c : cb_ref) (event_type : string)
  (h : tbl_ref) : Prop :=
  exists t l, tables s !! h = Some t /\ t !! event_type = Some l /\ c ∉ l.

(** A [BundleUpdatesEventCallback] for the event [E] and [N] runners after
    [r] matched updates, with [ok] for [self.success] and [u] for
    [self.update_event]. *)
Definition aggregator (hs : list tbl_ref) (et : string) (E N : Z)
  (r : Z) (ok : bool) (u : ApiEventUpdate_U) : EventCallback :=
  {| handlers := hs; event_type := et;
     kind := BundleUpdatesEventCallback E N r ok u |}.

(** Every update of the list reports [COMPLETED]. *)
Definition all_completed (us : list ApiEventUpdate_U) : bool :=
  forallb (fun u => bool_decide (upd_event_status u = Some COMPLETED)) us.

(** The router handing the events of [events] to the callback [c], one
    after the other; the results of the calls are collected. *)
Fixpoint deliver (ext : External) (c : cb_ref) (events : list Event) : M (list bool) :=
  match events with
  | [] => mret []
  | event :: events' =>
      r ← callback ext c event;
      rs ← deliver ext c events';
      mret (r :: rs)
  end.

(** What C1 says of a [BundleUpdatesEventCallback] for the event [E] and
    [N] runners, constructed in the store [s0] over the tables [hs]; [c] is
    the reference that the constructor returns and [s1] the store it leaves.
    The updates of [us] all carry the id [E].
    - Fewer than [N] of them: every call returns true and is counted,
      nothing is sent, the callback is still in every table.
    - Exactly [N] of them: every call returns true, the counter is [N], one
      [update_events] call has been made, with the stored update event and
      nothing else, which is the update given to the constructor up to its
      status, and the callback is in none of its tables.
    - After any events whatsoever, the counter is between 0 and [N].
    - An update with another id returns false and leaves the store as it
      was. *)
Definition aggregator_contract (ext : External) (s0 : MainRunner)
  (hs : list tbl_ref) (et : string) (E N : Z) (upd : ApiEventUpdate_U) : Prop :=
  let c := next_ref s0 in
  exists s1,
    EventCallback_init hs et (BundleUpdatesEventCallback E N 0 true upd) s0
    = (s1, inr c) /\
    (forall us, Forall (fun u => upd_id u = E) us -> Z.of_nat (length us) < N ->
       exists s2 ok,
         deliver ext c (EUpdate <$> us) s1 = (s2, inr (replicate (length us) true)) /\
         callbacks s2 !! c
         = Some (aggregator hs et E N (Z.of_nat (length us)) ok upd) /\
         trace s2 = trace s0 /\
         (forall h, h ∈ hs -> registered_at s2 c et h)) /\
    (forall us, Forall (fun u => upd_id u = E) us -> Z.of_nat (length us) = N -> 0 < N ->
       exists s2 ok sent,
         deliver ext c (EUpdate <$> us) s1 = (s2, inr (replicate (length us) true)) /\
         callbacks s2 !! c = Some (aggregator hs et E N N ok sent) /\
         (exists status, sent = set_event_status status upd) /\
         trace s2 = trace s0 ++ [rc_update_events [(upd_discriminator sent, [EUpdate sent])]] /\
         (forall h, h ∈ hs -> removed_at s2 c et h)) /\
    (forall events, exists r ok u,
         callbacks (deliver ext c events s1).1 !! c = Some (aggregator hs et E N r ok u) /\
         0 <= r <= N) /\
    (forall s r ok u' u,
       callbacks s !! c = Some (aggregator hs et E N r ok u') ->
       upd_id u ≠ E ->
       callback ext c (EUpdate u) s = (s, inr false)).

(** The update that [_handle_run_events] makes for a run event, before it
    gives it a status. *)
Definition run_event_update (s : MainRunner) (event : ApiRunEventRead) : ApiEventUpdate_U :=
  {| upd_discriminator := "ApiRunEventUpdate";
     upd_id := re_id event; upd_runner_id := _ident s;
     upd_run_id := re_run_id event; upd_event_status := None |}.


(** The name of an entry of [fragment_executors] in the configuration
    file: the only key of the mapping. *)
Definition executor_name (executor : yaml) : option string :=
  match executor with
  | YDict [(executor_name, _)] => Some executor_name
  | _ => None
  end.

(** A run fragment that is bound to a fragment with an input artifact that
    the backend of the example world does not have. *)
Definition fragment_without_artifact : RunFragmentRead :=
  {| rf_id := 12; rf_fragment_id := 21; rf_fragment_object_id := 2;
     rf_fragment_executor_tag := None |}.

(** ** Runs that can be torn down *)

(** The callback [c] is an object of the store and is in the set under its
    key of each of its tables, which are distinct tables. *)
Definition callback_ready (s : MainRunner) (c : cb_ref) : Prop :=
  exists cb, callbacks s !! c = Some cb /\ NoDup (handlers cb) /\
    forall h, h ∈ handlers cb -> registered_at s c (event_type cb) h.

(** The four tables of a fragment runner, which [stop] clears. *)
Definition runner_tables (runner : FragmentRunner) : list tbl_ref :=
  [create_event_handlers runner; update_event_handlers runner;
   delete_event_handlers runner; query_event_handlers runner].

(** The runner is in [fragment_runners] under its name. *)
Definition runner_known (s : MainRunner) (runner : FragmentRunner) : Prop :=
  exists rs, dict_get (name runner) (fragment_runners s) = Some rs /\ runner ∈ rs.

(** The callbacks that a run holds on to. *)
Definition run_callbacks (run : MainRun) : list cb_ref :=
  option_list (run_state_callback run) ++ option_list (output_artifact_callback run).

Definition run_runners (run : MainRun) : list FragmentRunner :=
  dict_values (fragment_runner_map run).

(** A run as [_start_run] leaves it: its callbacks are two registered
    objects, its runners are distinct and known to the main runner. *)
Definition run_ready (s : MainRunner) (run : MainRun) : Prop :=
  NoDup (run_callbacks run) /\
  (forall c, c ∈ run_callbacks run -> callback_ready s c) /\
  NoDup (run_runners run) /\
  (forall runner, runner ∈ run_runners run -> runner_known s runner).

(** The run [other] shares nothing with the run [run]: no callback, no
    runner, and no table of a runner of [other] is a handler table of a
    callback of [run]. *)
Definition apart (s : MainRunner) (other run : MainRun) : Prop :=
  (forall c, c ∈ run_callbacks run -> c ∉ run_callbacks other) /\
  (forall c cb h runner,
     c ∈ run_callbacks run -> callbacks s !! c = Some cb -> h ∈ handlers cb ->
     runner ∈ run_runners other -> h ∉ runner_tables runner) /\
  (forall runner, runner ∈ run_runners run -> runner ∉ run_runners other).

(** The runs registered under the ids [ks] are objects of the store, ready,
    and apart from each other. *)
Definition registry_ready (s : MainRunner) (ks : list Z) : Prop :=
  forall k, k ∈ ks ->
  exists r run,
    dict_get k (_run_map s) = Some r /\ runs s !! r = Some run /\ run_ready s run /\
    forall k' r' run',
      k' ∈ ks -> k' ≠ k ->
      dict_get k' (_run_map s) = Some r' -> runs s !! r' = Some run' ->
      apart s run' run.

(** [s'] is [s] but for its tables, its [fragment_runners] and its trace. *)
Definition same_registry (s s' : MainRunner) : Prop :=
  _run_map s' = _run_map s /\ runs s' = runs s /\ callbacks s' = callbacks s.


(** A fragment state below [COMPLETED]. *)
Definition unfinished (fragment_state : RunState) : Prop :=
  RunState_rank fragment_state < RunState_rank RS_COMPLETED.




(** The example runner once both fragments of run 7 have reported a final
    state to the state callback (callback 12). *)
Definition finished_runner : MainRunner :=
  (deliver example_world 12%nat
     [ERunFragmentStateCreate 7 10 RS_COMPLETED; ERunFragmentStateCreate 7 11 RS_ERROR]
     started_runner).1.

(** A second run, 8, with one fragment, started in the example runner after
    run 7 has finished: its runner has the tables 15 to 18, its callbacks
    are 20 (aggregator), 21 (state) and 22 (artifact). *)
Definition second_start_event : ApiRunEventRead :=
  {| re_id := 9; re_run_id := Some 8; re_run_event_type := START_RUN;
     re_event_discriminator := "ApiRunEventStartRunRead";
     re_start := Some (example_payload [example_fragment 13 1 None]) |}.

Definition two_runs_runner : MainRunner :=
  (_handle_run_events example_world [ERunRead second_start_event] [] finished_runner).1.

Definition runner_of_fragment_13 : FragmentRunner :=
  {| fr_ident := 14%nat; name := "local";
     create_event_handlers := 15%nat; update_event_handlers := 16%nat;
     delete_event_handlers := 17%nat; query_event_handlers := 18%nat |}.

Definition second_run : MainRun :=
  {| run_id := 8;
     fragment_runner_map := [(13, runner_of_fragment_13)];
     cancelled := false;
     fragment_run_state := [(13, RS_SPAWNED)];
     run_state_callback := Some 21%nat;
     output_artifact_callback := Some 22%nat |}.


(** ** C3 in its own words *)

Section Routing.
Context (ext : External).

(** Each callback of [cbs], called in turn with [event], returns false;
    the calls take the store from [s] to [s']. *)
Inductive all_decline (event : Event) : list cb_ref -> MainRunner -> MainRunner -> Prop :=
| decline_nil s : all_decline event [] s s
| decline_cons c cbs s s1 s2 :
    callback ext c event s = (s1, inr false) ->
    all_decline event cbs s1 s2 ->
    all_decline event (c :: cbs) s s2.

(** The fate of one event whose key is in the table [callbacks]: it is
    forwarded when no callback of the key returns true, and otherwise as
    the first callback that returns true says with its [passthrough()];
    no callback after that one is called. *)
Inductive routed (callbacks_ref : tbl_ref) (key : string) (event : Event)
  : MainRunner -> MainRunner -> bool -> Prop :=
| routed_unmatched s s' t cbs :
    tables s !! callbacks_ref = Some t ->
    t !! key = Some cbs ->
    all_decline event cbs s s' ->
    routed callbacks_ref key event s s' true
| routed_matched s s1 s' t before c after self :
    tables s !! callbacks_ref = Some t ->
    t !! key = Some (before ++ c :: after) ->
    all_decline event before s s1 ->
    callback ext c event s1 = (s', inr true) ->
    callbacks s' !! c = Some self ->
    routed callbacks_ref key event s s' (passthrough self).

(** The events of one key that is in the table, in order; [kept] are
    those that are forwarded. *)
Inductive routed_events (callbacks_ref : tbl_ref) (key : string)
  : list Event -> MainRunner -> MainRunner -> list Event -> Prop :=
| routed_events_nil s : routed_events callbacks_ref key [] s s []
| routed_events_cons event events s s1 s2 forwarded kept :
    routed callbacks_ref key event s s1 forwarded ->
    routed_events callbacks_ref key events s1 s2 kept ->
    routed_events callbacks_ref key (event :: events) s s2
      (if forwarded then event :: kept else kept).

(** A whole bundle: the events of a key that the table does not have are
    all forwarded, and no callback is called for them. *)
Inductive routed_bundle (callbacks_ref : tbl_ref)
  : ApiEventBundle -> MainRunner -> MainRunner -> list Event -> Prop :=
| routed_bundle_nil s : routed_bundle callbacks_ref [] s s []
| routed_bundle_no_entry key events items s s' t kept :
    tables s !! callbacks_ref = Some t ->
    t !! key = None ->
    routed_bundle callbacks_ref items s s' kept ->
    routed_bundle callbacks_ref ((key, events) :: items) s s' (events ++ kept)
| routed_bundle_entry key events items s s1 s2 t kept1 kept2 :
    tables s !! callbacks_ref = Some t ->
    is_Some (t !! key) ->
    routed_events callbacks_ref key events s s1 kept1 ->
    routed_bundle callbacks_ref items s1 s2 kept2 ->
    routed_bundle callbacks_ref ((key, events) :: items) s s2 (kept1 ++ kept2).

End Routing.

(** ** Vocabulary of the further properties *)

(** The update that [_handle_runner_events] adds for a runner event:
    [COMPLETED] for a heartbeat, without a status otherwise. *)
Definition runner_event_update (s : MainRunner) (event : ApiRunnerEventRead)
  : ApiEventUpdate_U :=
  {| upd_discriminator := "ApiRunnerEventUpdate";
     upd_id := rn_id event; upd_runner_id := _ident s;
     upd_run_id := None;
     upd_event_status := if rn_heartbeat event then Some COMPLETED else None |}.

(** The events of a bundle, key after key. *)
Definition events_of (b : ApiEventBundle) : list Event := concat b.*2.

(** The run [run] with the state [st] recorded for the fragment [fid]. *)
Definition with_state_of (fid : Z) (st : RunState) (run : MainRun) : MainRun :=
  with_fragment_run_state (dict_set fid st (fragment_run_state run)) run.

(** The reader task of the runner has not failed: it is pending, or it was
    cancelled. *)
Definition reader_alive (s : MainRunner) (runner : FragmentRunner) : Prop :=
  read_tasks s !! fr_ident runner = Some Pending \/
  read_tasks s !! fr_ident runner = Some Cancelled.


(** [s'] has the reader tasks of [s]. *)
Definition same_read_tasks (s s' : MainRunner) : Prop :=
  read_tasks s' = read_tasks s.

(** The method [m] takes a runner to one that is related to it by [R],
    whether it returns or raises. *)
Definition keeps {A} (R : MainRunner -> MainRunner -> Prop) (m : M A) : Prop :=
  forall s s' r, m s = (s', r) -> R s s'.

(** [s'] has the registry of [s] and every run object of [s]. *)
Definition registry_grows (s s' : MainRunner) : Prop :=
  _run_map s' = _run_map s /\
  forall r, is_Some (runs s !! r) -> is_Some (runs s' !! r).


(** A call that starts a plug-in. *)
Definition is_plugin_start (a : Action) : Prop :=
  match a with
  | plugin_start _ _ _ => True
  | _ => False
  end.

(** [s'] comes from [s] by starting runners only: the configurations are
    those of [s], every runner known in [s] is known in [s'], and the calls
    made in between all start a plug-in. *)
Definition only_started (s s' : MainRunner) : Prop :=
  _fragment_executor_configs s' = _fragment_executor_configs s /\
  (forall runner, runner_known s runner -> runner_known s' runner) /\
  exists starts, trace s' = trace s ++ starts /\ Forall is_plugin_start starts.

(** The keys of a fetched bundle that [_handel_events] has a case for. *)
Definition handled_key (key : string) : bool :=
  bool_decide (key = "ApiRunnerEventRead")
  || bool_decide (key = "ApiRunEventStartRunRead")
  || bool_decide (key = "ApiRunEventRead").

(** * Properties *)

(** ** The store under [remove_callback] *)

Lemma unregister_from_callbacks c et h s :
  callbacks (unregister_from c et h s).1 = callbacks s.
Proof.
  unfold unregister_from, mbind, M_bind, load_table.
  destruct (tables s !! h) as [t|]; [|done].
  destruct (t !! et) as [l|]; [|done].
  by destruct (set_remove c l).
Qed.

Lemma for_each_unregister_callbacks c et hs s :
  callbacks (for_each hs (unregister_from c et) s).1 = callbacks s.
Proof.
  revert s. induction hs as [|h hs IH]; intros s; [done|].
  simpl. unfold mbind, M_bind.
  pose proof (unregister_from_callbacks c et h s) as Hh.
  destruct (unregister_from c et h s) as [s1 [e|[]]]; simpl in *; [done|].
  by rewrite IH.
Qed.

(** Removing from a table that holds the callback under its key. *)
Lemma unregister_from_present c et h s t l :
  tables s !! h = Some t -> t !! et = Some l -> c ∈ l ->
  unregister_from c et h s
  = (with_tables (insert h (<[et := filter (fun y => y ≠ c) l]> t)) s, inr tt).
Proof.
  intros Ht Hl Hc. unfold unregister_from, mbind, M_bind, load_table.
  rewrite Ht, Hl. unfold set_remove. by rewrite decide_True.
Qed.

(** Removing from a table that has the key but not the callback. *)
Lemma unregister_from_absent c et h s t l :
  tables s !! h = Some t -> t !! et = Some l -> c ∉ l ->
  unregister_from c et h s = (s, inl KeyError).
Proof.
  intros Ht Hl Hc. unfold unregister_from, mbind, M_bind, load_table.
  rewrite Ht, Hl. unfold set_remove. by rewrite decide_False.
Qed.

(** What a successful removal from one table looks like. *)
Lemma unregister_from_inv c et h s s' :
  unregister_from c et h s = (s', inr tt) ->
  exists t l, tables s !! h = Some t /\ t !! et = Some l /\ c ∈ l /\
    s' = with_tables (insert h (<[et := filter (fun y => y ≠ c) l]> t)) s.
Proof.
  unfold unregister_from, mbind, M_bind, load_table.
  destruct (tables s !! h) as [t|] eqn:Ht; [|discriminate].
  destruct (t !! et) as [l|] eqn:Hl; [|discriminate].
  unfold set_remove. case_decide; [|discriminate].
  intros [= <-]. by exists t, l.
Qed.

Lemma not_elem_of_filter_ne (c : cb_ref) (l : list cb_ref) :
  c ∉ filter (fun y => y ≠ c) l.
Proof. rewrite list_elem_of_filter. tauto. Qed.

(** A table from which the callback is already gone is not touched by a
    removal loop that succeeds: the loop cannot have visited it. *)
Lemma for_each_unregister_keeps c et hs : forall s s' h t l,
  for_each hs (unregister_from c et) s = (s', inr tt) ->
  tables s !! h = Some t -> t !! et = Some l -> c ∉ l ->
  tables s' !! h = Some t.
Proof.
  induction hs as [|h0 hs IH]; intros s s' h t l Hrun Ht Hl Hc.
  - by injection Hrun as <-.
  - simpl in Hrun. unfold mbind, M_bind in Hrun.
    destruct (unregister_from c et h0 s) as [s1 [e|[]]] eqn:H0; [discriminate|].
    apply unregister_from_inv in H0 as (t0 & l0 & Ht0 & Hl0 & Hc0 & ->).
    eapply IH; [exact Hrun| |exact Hl|exact Hc].
    simpl. destruct (decide (h0 = h)) as [->|Hne].
    + exfalso. rewrite Ht in Ht0. injection Ht0 as <-.
      rewrite Hl in Hl0. injection Hl0 as <-. done.
    + by rewrite lookup_insert_ne.
Qed.

(** ** Removing a callback twice *)

(** C9, as the code has it: for a callback with at least one handler table,
    a second [remove_callback] after a successful first one raises
    [KeyError] (from [set.remove] on the first table), and leaves the whole
    store, hence every handler table, as the first call left it. *)
Theorem remove_callback_twice_raises s c cb s' :
  callbacks s !! c = Some cb ->
  handlers cb ≠ [] ->
  remove_callback c s = (s', inr tt) ->
  remove_callback c s' = (s', inl KeyError).
Proof.
  intros Hcb Hne Hfirst.
  assert (Hcb' : callbacks s' !! c = Some cb).
  { replace s' with (remove_callback c s).1 by (by rewrite Hfirst).
    unfold remove_callback, mbind, M_bind, load_callback. rewrite Hcb.
    pose proof (for_each_unregister_callbacks c (event_type cb) (handlers cb) s) as H.
    destruct (for_each _ _ s) as [s1 [e|[]]]; simpl in *; by rewrite H. }
  unfold remove_callback, mbind, M_bind, load_callback in *.
  rewrite Hcb in Hfirst. rewrite Hcb'.
  destruct (handlers cb) as [|h hs]; [done|].
  simpl in *. unfold mbind, M_bind in *.
  destruct (unregister_from c (event_type cb) h s) as [s1 [e|[]]] eqn:Hh; [discriminate|].
  apply unregister_from_inv in Hh as (t & l & Ht & Hl & Hc & ->).
  erewrite unregister_from_absent; [done| | |].
  - eapply for_each_unregister_keeps; [exact Hfirst| | |].
    + simpl. apply lookup_insert_eq.
    + apply lookup_insert_eq.
    + apply not_elem_of_filter_ne.
  - apply lookup_insert_eq.
  - apply not_elem_of_filter_ne.
Qed.

Lemma remove_callback_twice_raises_witness :
  remove_callback 1%nat (remove_callback 1%nat store_with_callback).1
  = ((remove_callback 1%nat store_with_callback).1, inl KeyError).
Proof.
  eapply (remove_callback_twice_raises store_with_callback 1%nat).
  - vm_compute. reflexivity.
  - simpl. discriminate.
  - vm_compute. reflexivity.
Defined.

(** C9 as stated fails: the callback of the example store is registered in
    one table; its first removal returns, its second one raises. *)
Lemma remove_callback_twice_counterexample :
  (remove_callback 1%nat store_with_callback).2 = inr tt /\
  (remove_callback 1%nat (remove_callback 1%nat store_with_callback).1).2
  = inl KeyError.
Proof. split; vm_compute; reflexivity. Qed.

(** ** The store under [EventCallback.__init__] *)

Lemma register_in_spec c et h s t :
  tables s !! h = Some t ->
  register_in c et h s
  = (with_tables (insert h (<[et := set_add c (default [] (t !! et))]> t)) s, inr tt).
Proof.
  intros Ht. unfold register_in, mbind, M_bind, load_table. by rewrite Ht.
Qed.

Lemma elem_of_set_add (c : cb_ref) (l : list cb_ref) : c ∈ set_add c l.
Proof.
  unfold set_add. case_decide; [done|]. apply elem_of_app. right. by left.
Qed.

Lemma for_each_register c et hs : forall s,
  (forall h, h ∈ hs -> is_Some (tables s !! h)) ->
  exists s', for_each hs (register_in c et) s = (s', inr tt) /\
    callbacks s' = callbacks s /\ trace s' = trace s /\
    (forall h, is_Some (tables s !! h) -> is_Some (tables s' !! h)) /\
    (forall h, h ∈ hs \/ registered_at s c et h -> registered_at s' c et h).
Proof.
  induction hs as [|h hs IH]; intros s Halloc.
  - exists s. repeat split; try done. intros h [Hh|Hh]; [by apply elem_of_nil in Hh|done].
  - destruct (Halloc h) as [t Ht]; [by left|].
    simpl. unfold mbind, M_bind. rewrite (register_in_spec _ _ _ _ _ Ht).
    set (s1 := with_tables _ s).
    assert (Hkeep : forall h', is_Some (tables s !! h') -> is_Some (tables s1 !! h')).
    { intros h' Hh'. simpl. destruct (decide (h = h')) as [->|Hne].
      - rewrite lookup_insert_eq. eauto.
      - by rewrite lookup_insert_ne. }
    destruct (IH s1) as (s' & Hrun & Hcb & Htr & Hal & Hreg).
    { intros h' Hh'. apply Hkeep, Halloc. by right. }
    exists s'. split; [exact Hrun|]. split; [by rewrite Hcb|]. split; [by rewrite Htr|].
    split; [intros h' Hh'; by apply Hal, Hkeep|].
    intros h' Hh'. apply Hreg.
    destruct (decide (h = h')) as [<-|Hne].
    + right. exists (<[et := set_add c (default [] (t !! et))]> t), (set_add c (default [] (t !! et))).
      simpl. rewrite !lookup_insert_eq. split; [done|]. split; [done|].
      apply elem_of_set_add.
    + destruct Hh' as [Hh'|(t' & l' & Ht' & Hl' & Hc')].
      * left. apply elem_of_cons in Hh' as [->|]; [done|done].
      * right. exists t', l'. simpl. by rewrite lookup_insert_ne.
Qed.

(** The constructor returns a fresh reference under which the object is
    stored, registered in each of its tables; nothing is sent. *)
Lemma EventCallback_init_spec hs et k s :
  (forall h, h ∈ hs -> is_Some (tables s !! h)) ->
  exists s', EventCallback_init hs et k s = (s', inr (next_ref s)) /\
    callbacks s' !! next_ref s
    = Some {| handlers := hs; event_type := et; kind := k |} /\
    trace s' = trace s /\
    (forall h, is_Some (tables s !! h) -> is_Some (tables s' !! h)) /\
    (forall h, h ∈ hs \/ registered_at s (next_ref s) et h ->
               registered_at s' (next_ref s) et h).
Proof.
  intros Halloc. unfold EventCallback_init, mbind, M_bind, fresh_ref, store_callback,
    update_self. simpl.
  set (s0 := with_callbacks _ _).
  destruct (for_each_register (next_ref s) et hs s0) as (s' & Hrun & Hcb & Htr & Hal & Hreg).
  { exact Halloc. }
  exists s'. rewrite Hrun. split; [done|].
  split; [rewrite Hcb; simpl; apply lookup_insert_eq|].
  split; [by rewrite Htr|]. split; [exact Hal|exact Hreg].
Qed.

(** [remove_callback] on a callback that is registered in each of its
    tables, which are distinct: it returns, and the callback is in none. *)
Lemma for_each_unregister c et hs : forall s,
  NoDup hs ->
  (forall h, h ∈ hs -> registered_at s c et h) ->
  exists s', for_each hs (unregister_from c et) s = (s', inr tt) /\
    callbacks s' = callbacks s /\ trace s' = trace s /\
    (forall h, h ∈ hs -> removed_at s' c et h).
Proof.
  induction hs as [|h hs IH]; intros s Hnd Hreg.
  - exists s. repeat split; try done. intros h Hh. by apply elem_of_nil in Hh.
  - apply NoDup_cons in Hnd as [Hnotin Hnd].
    destruct (Hreg h) as (t & l & Ht & Hl & Hc); [by left|].
    simpl. unfold mbind, M_bind. rewrite (unregister_from_present _ _ _ _ _ _ Ht Hl Hc).
    set (s1 := with_tables _ s).
    destruct (IH s1 Hnd) as (s' & Hrun & Hcb & Htr & Hrem).
    { intros h' Hh'. destruct (Hreg h') as (t' & l' & Ht' & Hl' & Hc'); [by right|].
      exists t', l'. simpl. rewrite lookup_insert_ne; [done|]. by intros ->. }
    exists s'. split; [exact Hrun|]. split; [by rewrite Hcb|]. split; [by rewrite Htr|].
    intros h' Hh'. apply elem_of_cons in Hh' as [->|Hh']; [|by apply Hrem].
    exists (<[et := filter (fun y => y ≠ c) l]> t), (filter (fun y => y ≠ c) l).
    split; [|split; [apply lookup_insert_eq|apply not_elem_of_filter_ne]].
    eapply for_each_unregister_keeps; [exact Hrun| | |].
    + simpl. apply lookup_insert_eq.
    + apply lookup_insert_eq.
    + apply not_elem_of_filter_ne.
Qed.

Lemma remove_callback_spec c cb s :
  callbacks s !! c = Some cb ->
  NoDup (handlers cb) ->
  (forall h, h ∈ handlers cb -> registered_at s c (event_type cb) h) ->
  exists s', remove_callback c s = (s', inr tt) /\
    callbacks s' = callbacks s /\ trace s' = trace s /\
    (forall h, h ∈ handlers cb -> removed_at s' c (event_type cb) h).
Proof.
  intros Hcb Hnd Hreg. unfold remove_callback, mbind, M_bind, load_callback.
  rewrite Hcb. by apply for_each_unregister.
Qed.

(** ** [BundleUpdatesEventCallback.callback], call by call *)

Section Aggregator.
Context (ext : External).
Context (c : cb_ref) (hs : list tbl_ref) (et : string).
Context (E N : Z) (upd : ApiEventUpdate_U).

Local Abbreviation aggregator := (aggregator hs et E N).

Lemma success_step (u : ApiEventUpdate_U) (ok : bool) :
  (if decide (upd_event_status u ≠ Some COMPLETED) then false else ok)
  = ok && bool_decide (upd_event_status u = Some COMPLETED).
Proof.
  case_decide; case_bool_decide; try done; destruct ok; done.
Qed.

(** An update with another id: [False], and nothing has changed. *)
Lemma callback_other_id s r ok u' u :
  callbacks s !! c = Some (aggregator r ok u') ->
  upd_id u ≠ E ->
  callback ext c (EUpdate u) s = (s, inr false).
Proof.
  intros Hcb Hid. unfold callback, mbind, M_bind, load_callback. rewrite Hcb. simpl.
  rewrite decide_True; [done|]. by intros ->.
Qed.

(** A matching update that is not the last one: it is counted. *)
Lemma callback_counts s r ok u' u :
  callbacks s !! c = Some (aggregator r ok u') ->
  upd_id u = E -> r + 1 < N ->
  callback ext c (EUpdate u) s
  = (with_callbacks
       (insert c (aggregator (r + 1)
                    (ok && bool_decide (upd_event_status u = Some COMPLETED)) u')) s,
     inr true).
Proof.
  intros Hcb Hid Hr. unfold callback, mbind, M_bind, load_callback. rewrite Hcb. simpl.
  rewrite decide_False; [|by intros []].
  replace (r <? N) with true by (symmetry; apply Z.ltb_lt; lia). simpl.
  unfold store_callback, update_self. simpl.
  rewrite decide_False; [|lia]. simpl. by rewrite success_step.
Qed.

(** The last matching update: the aggregated update is sent, alone, with
    the composed status, and the callback leaves its tables. *)
Lemma callback_last s r ok u' u :
  callbacks s !! c = Some (aggregator r ok u') ->
  NoDup hs ->
  (forall h, h ∈ hs -> registered_at s c et h) ->
  upd_id u = E -> r + 1 = N ->
  let ok' := ok && bool_decide (upd_event_status u = Some COMPLETED) in
  let sent := set_event_status (if ok' then COMPLETED else ERROR) u' in
  exists s', callback ext c (EUpdate u) s = (s', inr true) /\
    callbacks s' !! c = Some (aggregator N ok' sent) /\
    trace s' = trace s ++ [rc_update_events (add_event (EUpdate sent) [])] /\
    (forall h, h ∈ hs -> removed_at s' c et h).
Proof.
  intros Hcb Hnd Hreg Hid Hr ok' sent.
  unfold callback, mbind, M_bind, load_callback. rewrite Hcb. simpl.
  rewrite decide_False; [|by intros []].
  replace (r <? N) with true by (symmetry; apply Z.ltb_lt; lia). simpl.
  unfold store_callback, call, update_self. simpl.
  rewrite decide_True; [|lia]. simpl. rewrite success_step. fold ok'. fold sent.
  rewrite Hr.
  match goal with |- context [remove_callback c ?s0] => set (s1 := s0) end.
  destruct (remove_callback_spec c (aggregator N ok' sent) s1)
    as (s' & Hrun & Hcbs & Htr & Hrem).
  - simpl. apply lookup_insert_eq.
  - exact Hnd.
  - intros h Hh. destruct (Hreg h Hh) as (t & l & Ht & Hl & Hc). by exists t, l.
  - exists s'. rewrite Hrun. split; [done|].
    split; [rewrite Hcbs; simpl; apply lookup_insert_eq|].
    split; [by rewrite Htr|exact Hrem].
Qed.

(** Whatever the event and whatever the outcome of the call, the counter
    does not go down and does not pass [N]. *)
Lemma callback_bounded s r ok u' event :
  callbacks s !! c = Some (aggregator r ok u') ->
  r <= N ->
  exists r' ok' u'',
    callbacks (callback ext c event s).1 !! c = Some (aggregator r' ok' u'') /\
    r <= r' <= N.
Proof.
  intros Hcb Hr. unfold callback, mbind, M_bind, load_callback. rewrite Hcb. simpl.
  destruct event as [u| | | | |];
    try (exists r, ok, u'; split; [done|lia]).
  case_decide; [exists r, ok, u'; split; [done|lia]|].
  destruct (r <? N) eqn:Hlt; simpl; [|exists r, ok, u'; split; [done|lia]].
  apply Z.ltb_lt in Hlt.
  unfold store_callback, call, update_self. simpl.
  case_decide; simpl.
  - match goal with |- context [remove_callback c ?s0] => set (s1 := s0) end.
    assert (Hs1 : callbacks s1 !! c
                  = Some (aggregator (r + 1)
                            (if decide (upd_event_status u ≠ Some COMPLETED)
                             then false else ok)
                            (set_event_status
                               (if (if decide (upd_event_status u ≠ Some COMPLETED)
                                    then false else ok)
                                then COMPLETED else ERROR) u'))).
    { subst s1. simpl. apply lookup_insert_eq. }
    assert (Hsame : callbacks (remove_callback c s1).1 = callbacks s1).
    { unfold remove_callback, mbind, M_bind, load_callback. rewrite Hs1.
      apply for_each_unregister_callbacks. }
    destruct (remove_callback c s1) as [s2 [e|[]]]; simpl in *;
      do 3 eexists; (split; [rewrite Hsame; exact Hs1|lia]).
  - do 3 eexists. split; [apply lookup_insert_eq|lia].
Qed.

(** ** A run of matching updates *)

Lemma all_completed_Forall us :
  all_completed us = true <->
  Forall (fun u => upd_event_status u = Some COMPLETED) us.
Proof.
  unfold all_completed. rewrite forallb_forall, Forall_forall.
  split; intros H u Hu.
  - apply list_elem_of_In in Hu. apply H in Hu. by apply bool_decide_eq_true in Hu.
  - apply bool_decide_eq_true. apply H. by apply list_elem_of_In.
Qed.

Lemma deliver_cons event events s :
  deliver ext c (event :: events) s
  = match callback ext c event s with
    | (s1, inr r) =>
        match deliver ext c events s1 with
        | (s2, inr rs) => (s2, inr (r :: rs))
        | (s2, inl e) => (s2, inl e)
        end
    | (s1, inl e) => (s1, inl e)
    end.
Proof.
  simpl. unfold mbind, M_bind. destruct (callback ext c event s) as [s1 [e|r]]; [done|].
  by destruct (deliver ext c events s1) as [s2 [e|rs]].
Qed.

(** Fewer updates than would complete the callback. *)
Lemma deliver_counts us : forall s r ok,
  callbacks s !! c = Some (aggregator r ok upd) ->
  Forall (fun u => upd_id u = E) us ->
  r + Z.of_nat (length us) < N ->
  exists s', deliver ext c (EUpdate <$> us) s = (s', inr (replicate (length us) true)) /\
    callbacks s' !! c
    = Some (aggregator (r + Z.of_nat (length us)) (ok && all_completed us) upd) /\
    tables s' = tables s /\ trace s' = trace s.
Proof.
  induction us as [|u us IH]; intros s r ok Hcb Hids Hlen.
  - exists s. simpl. rewrite Z.add_0_r, andb_true_r. done.
  - apply Forall_cons in Hids as [Hid Hids].
    simpl length in *. rewrite Nat2Z.inj_succ in *.
    rewrite fmap_cons, deliver_cons.
    rewrite (callback_counts s r ok upd u Hcb Hid); [|lia].
    set (s1 := with_callbacks _ s).
    destruct (IH s1 (r + 1) (ok && bool_decide (upd_event_status u = Some COMPLETED)))
      as (s' & Hrun & Hcb' & Htb & Htr); [apply lookup_insert_eq|done|lia|].
    exists s'. rewrite Hrun. split; [done|].
    split; [|by rewrite Htb, Htr].
    rewrite Hcb'. f_equal. f_equal; [lia|].
    change (all_completed (u :: us))
      with (bool_decide (upd_event_status u = Some COMPLETED) && all_completed us).
    by rewrite andb_assoc.
Qed.

(** Exactly the updates that complete the callback. *)
Lemma deliver_completes us : forall s r ok,
  callbacks s !! c = Some (aggregator r ok upd) ->
  NoDup hs ->
  (forall h, h ∈ hs -> registered_at s c et h) ->
  Forall (fun u => upd_id u = E) us ->
  us ≠ [] ->
  r + Z.of_nat (length us) = N ->
  let ok' := ok && all_completed us in
  let sent := set_event_status (if ok' then COMPLETED else ERROR) upd in
  exists s', deliver ext c (EUpdate <$> us) s = (s', inr (replicate (length us) true)) /\
    callbacks s' !! c = Some (aggregator N ok' sent) /\
    trace s' = trace s ++ [rc_update_events (add_event (EUpdate sent) [])] /\
    (forall h, h ∈ hs -> removed_at s' c et h).
Proof.
  induction us as [|u us IH]; intros s r ok Hcb Hnd Hreg Hids Hne Hlen; [done|].
  apply Forall_cons in Hids as [Hid Hids].
  simpl length in *. rewrite Nat2Z.inj_succ in *.
  destruct us as [|u2 us].
  - rewrite fmap_cons, deliver_cons.
    destruct (callback_last s r ok upd u Hcb Hnd Hreg Hid) as (s' & Hrun & Hrest);
      [simpl in *; lia|].
    exists s'. rewrite Hrun. simpl. rewrite andb_true_r. done.
  - rewrite fmap_cons, deliver_cons.
    rewrite (callback_counts s r ok upd u Hcb Hid); [|simpl length in *; lia].
    set (s1 := with_callbacks _ s).
    destruct (IH s1 (r + 1) (ok && bool_decide (upd_event_status u = Some COMPLETED)))
      as (s' & Hrun & Hcb' & Htr & Hrem);
      [apply lookup_insert_eq|done|exact Hreg|done|done|lia|].
    exists s'. rewrite Hrun. split; [done|].
    assert (Hok : ok && all_completed (u :: u2 :: us)
                  = ok && bool_decide (upd_event_status u = Some COMPLETED)
                       && all_completed (u2 :: us)).
    { change (all_completed (u :: u2 :: us))
        with (bool_decide (upd_event_status u = Some COMPLETED)
              && all_completed (u2 :: us)).
      by rewrite andb_assoc. }
    rewrite Hok. done.
Qed.

(** Any events at all: the counter stays within [0..N]. *)
Lemma deliver_bounded events : forall s r ok u',
  callbacks s !! c = Some (aggregator r ok u') ->
  r <= N ->
  exists r' ok' u'',
    callbacks (deliver ext c events s).1 !! c = Some (aggregator r' ok' u'') /\
    r <= r' <= N.
Proof.
  induction events as [|event events IH]; intros s r ok u' Hcb Hr.
  - exists r, ok, u'. split; [done|lia].
  - destruct (callback_bounded s r ok u' event Hcb Hr)
      as (r1 & ok1 & u1 & Hcb1 & Hr1).
    rewrite deliver_cons.
    destruct (callback ext c event s) as [s1 [e|b]]; simpl in *.
    + exists r1, ok1, u1. split; [done|lia].
    + destruct (IH s1 r1 ok1 u1 Hcb1) as (r2 & ok2 & u2 & Hcb2 & Hr2); [lia|].
      destruct (deliver ext c events s1) as [s2 [e|bs]]; simpl in *;
        exists r2, ok2, u2; (split; [done|lia]).
Qed.

End Aggregator.

(** ** The aggregator *)

(** C1: a [BundleUpdatesEventCallback] of arity [N] for the event [E],
    constructed over distinct handler tables of the store, counts each call
    with an update of id [E], never counts beyond [N], on the [N]th such call
    and only then sends one [update_events] call with its stored update event
    alone and leaves every table it was registered in; a call with another
    id returns false and changes nothing. *)
Theorem aggregator_arity ext s0 hs et E N upd :
  NoDup hs ->
  (forall h, h ∈ hs -> is_Some (tables s0 !! h)) ->
  0 <= N ->
  aggregator_contract ext s0 hs et E N upd.
Proof.
  intros Hnd Halloc HN. unfold aggregator_contract.
  destruct (EventCallback_init_spec hs et (BundleUpdatesEventCallback E N 0 true upd) s0 Halloc)
    as (s1 & Hinit & Hcb & Htr & _ & Hreg).
  exists s1. split; [exact Hinit|].
  assert (Hreg1 : forall h, h ∈ hs -> registered_at s1 (next_ref s0) et h)
    by (intros h Hh; apply Hreg; by left).
  repeat split.
  - intros us Hids Hlen.
    destruct (deliver_counts ext (next_ref s0) hs et E N upd us s1 0 true Hcb Hids)
      as (s2 & Hrun & Hcb2 & Htb & Htr2); [lia|].
    exists s2, (all_completed us). split; [exact Hrun|].
    split; [exact Hcb2|]. split; [by rewrite Htr2|].
    intros h Hh. destruct (Hreg1 h Hh) as (t & l & Ht & Hl & Hc).
    exists t, l. by rewrite Htb.
  - intros us Hids Hlen Hpos.
    destruct (deliver_completes ext (next_ref s0) hs et E N upd us s1 0 true Hcb Hnd Hreg1 Hids)
      as (s2 & Hrun & Hcb2 & Htr2 & Hrem); [by intros ->; simpl in *; lia|lia|].
    exists s2. eexists. eexists. split; [exact Hrun|]. split; [exact Hcb2|].
    split; [by eexists|]. split; [by rewrite Htr2, Htr|exact Hrem].
  - intros events.
    destruct (deliver_bounded ext (next_ref s0) hs et E N events s1 0 true upd Hcb HN)
      as (r & ok & u & Hcbr & Hr).
    by exists r, ok, u.
  - intros s r ok u' u Hs Hid. by eapply callback_other_id.
Qed.

Lemma aggregator_arity_witness :
  aggregator_contract example_world store_with_table [0%nat] "ApiRunEventUpdate"
    5 1 example_update.
Proof.
  apply aggregator_arity.
  - apply NoDup_singleton.
  - intros h Hh. apply list_elem_of_singleton in Hh as ->. vm_compute. eauto.
  - lia.
Defined.

(** C2: the status that the [N]th matched update writes into the aggregated
    update event, as sent to the backend, is [COMPLETED] if and only if each
    of the [N] matched updates had the status [COMPLETED], and [ERROR] if
    and only if one of them had not. *)
Theorem status_composition ext s0 hs et E N upd us :
  NoDup hs ->
  (forall h, h ∈ hs -> is_Some (tables s0 !! h)) ->
  Forall (fun u => upd_id u = E) us ->
  Z.of_nat (length us) = N -> 0 < N ->
  exists s1 s2 sent,
    EventCallback_init hs et (BundleUpdatesEventCallback E N 0 true upd) s0
    = (s1, inr (next_ref s0)) /\
    deliver ext (next_ref s0) (EUpdate <$> us) s1
    = (s2, inr (replicate (length us) true)) /\
    trace s2 = trace s0 ++ [rc_update_events [(upd_discriminator sent, [EUpdate sent])]] /\
    (exists ok, callbacks s2 !! next_ref s0 = Some (aggregator hs et E N N ok sent)) /\
    (upd_event_status sent = Some COMPLETED <->
     Forall (fun u => upd_event_status u = Some COMPLETED) us) /\
    (upd_event_status sent = Some ERROR <->
     ~ Forall (fun u => upd_event_status u = Some COMPLETED) us).
Proof.
  intros Hnd Halloc Hids Hlen Hpos.
  destruct (EventCallback_init_spec hs et (BundleUpdatesEventCallback E N 0 true upd) s0 Halloc)
    as (s1 & Hinit & Hcb & Htr & _ & Hreg).
  assert (Hreg1 : forall h, h ∈ hs -> registered_at s1 (next_ref s0) et h)
    by (intros h Hh; apply Hreg; by left).
  destruct (deliver_completes ext (next_ref s0) hs et E N upd us s1 0 true Hcb Hnd Hreg1 Hids)
    as (s2 & Hrun & Hcb2 & Htr2 & _); [by intros ->; simpl in *; lia|lia|].
  exists s1, s2. eexists. split; [exact Hinit|]. split; [exact Hrun|].
  split; [by rewrite Htr2, Htr|]. split; [by eexists|].
  simpl. rewrite <- all_completed_Forall.
  destruct (all_completed us); split; split; intros H; try done; congruence.
Qed.

Lemma status_composition_witness :
  exists s1 s2 sent,
    EventCallback_init [0%nat] "ApiRunEventUpdate"
      (BundleUpdatesEventCallback 5 1 0 true example_update) store_with_table
    = (s1, inr 1%nat) /\
    deliver example_world 1%nat
      (EUpdate <$> [set_event_status COMPLETED example_update]) s1
    = (s2, inr [true]) /\
    trace s2 = [rc_update_events [(upd_discriminator sent, [EUpdate sent])]] /\
    upd_event_status sent = Some COMPLETED.
Proof.
  destruct (status_composition example_world store_with_table [0%nat]
              "ApiRunEventUpdate" 5 1 example_update
              [set_event_status COMPLETED example_update])
    as (s1 & s2 & sent & Hinit & Hrun & Htr & _ & Hok & _).
  - apply NoDup_singleton.
  - intros h Hh. apply list_elem_of_singleton in Hh as ->. vm_compute. eauto.
  - repeat constructor.
  - reflexivity.
  - lia.
  - exists s1, s2, sent. split; [exact Hinit|]. split; [exact Hrun|].
    split; [exact Htr|]. apply Hok. repeat constructor.
Defined.

(** ** Reasoning in the monad *)

Lemma bind_returns {A B} (m : M A) (f : A -> M B) s s' b :
  (m ≫= f) s = (s', inr b) <->
  exists s1 a, m s = (s1, inr a) /\ f a s1 = (s', inr b).
Proof.
  unfold mbind, M_bind. split.
  - destruct (m s) as [s1 [e|a]]; [discriminate|]. intros H. by exists s1, a.
  - intros (s1 & a & -> & H). exact H.
Qed.

Lemma ret_returns {A} (a b : A) s s' :
  mret (M := M) a s = (s', inr b) <-> s' = s /\ b = a.
Proof.
  unfold mret, M_ret. split.
  - intros [= -> ->]. done.
  - intros [-> ->]. done.
Qed.

Lemma load_table_returns h s s' t :
  load_table h s = (s', inr t) <-> s' = s /\ tables s !! h = Some t.
Proof.
  unfold load_table. destruct (tables s !! h) as [t0|]; split.
  - intros [= -> ->]. done.
  - intros [-> [= ->]]. done.
  - discriminate.
  - intros [_ [=]].
Qed.

Lemma load_callback_returns c s s' cb :
  load_callback c s = (s', inr cb) <-> s' = s /\ callbacks s !! c = Some cb.
Proof.
  unfold load_callback. destruct (callbacks s !! c) as [cb0|]; split.
  - intros [= -> ->]. done.
  - intros [-> [= ->]]. done.
  - discriminate.
  - intros [_ [=]].
Qed.

(** ** [_apply_callbacks] against C3 in its own words *)

Section RoutingFacts.
Context (ext : External).

Lemma add_events_app es1 es2 b :
  add_events (es1 ++ es2) b = add_events es2 (add_events es1 b).
Proof. unfold add_events. apply foldl_app. Qed.

(** The inner loop: either it runs to its [else], all callbacks having
    returned false, or it is left at the first callback that returns
    true. *)
Lemma first_match_spec event cbs : forall s s' m,
  first_match ext cbs event s = (s', inr m) <->
  (m = None /\ all_decline ext event cbs s s') \/
  (exists before c after s1 self,
     cbs = before ++ c :: after /\
     all_decline ext event before s s1 /\
     callback ext c event s1 = (s', inr true) /\
     callbacks s' !! c = Some self /\
     m = Some (passthrough self)).
Proof.
  induction cbs as [|c cbs IH]; intros s s' m.
  - simpl. rewrite ret_returns. split.
    + intros [-> ->]. left. split; [done|constructor].
    + intros [[-> H]|(before & c & after & s1 & self & Heq & _)].
      * by inversion H.
      * by destruct before.
  - simpl. rewrite bind_returns. split.
    + intros (s1 & r & Hc & Hrest). destruct r.
      * apply bind_returns in Hrest as (s2 & self & Hload & Hret).
        apply load_callback_returns in Hload as [-> Hself].
        apply ret_returns in Hret as [-> ->].
        right. exists [], c, cbs, s, self. repeat split; try done. constructor.
      * apply IH in Hrest as [[-> Hd]|(before & c' & after & s2 & self & -> & Hd & Hc' & Hs & ->)].
        -- left. split; [done|]. econstructor; eauto.
        -- right. exists (c :: before), c', after, s2, self.
           repeat split; try done. econstructor; eauto.
    + intros [[-> Hd]|(before & c' & after & s1 & self & Heq & Hd & Hc' & Hs & ->)].
      * inversion Hd as [|? ? ? s1 ? Hc Hrest]; subst.
        exists s1, false. split; [done|]. apply IH. by left.
      * destruct before as [|c0 before]; simpl in Heq; injection Heq as -> ->.
        -- inversion Hd; subst. exists s', true. split; [done|].
           apply bind_returns. exists s', self. split.
           ++ by apply load_callback_returns.
           ++ by apply ret_returns.
        -- inversion Hd as [|? ? ? s2 ? Hc Hrest]; subst.
           exists s2, false. split; [done|]. apply IH. right.
           by exists before, c', after, s1, self.
Qed.

(** One event of a key that the table has. *)
Lemma apply_to_event_spec tbl key acc event s s' acc' :
  apply_to_event ext tbl key acc event s = (s', inr acc') <->
  exists forwarded,
    routed ext tbl key event s s' forwarded /\
    acc' = if forwarded : bool then add_event event acc else acc.
Proof.
  unfold apply_to_event. rewrite bind_returns. split.
  - intros (s1 & t & Hload & Hrest).
    apply load_table_returns in Hload as [-> Ht].
    destruct (t !! key) as [cbs|] eqn:Hkey; [|discriminate].
    apply bind_returns in Hrest as (s2 & m & Hm & Hret).
    apply first_match_spec in Hm
      as [[-> Hd]|(before & c & after & s1 & self & -> & Hd & Hc & Hs & ->)].
    + apply ret_returns in Hret as [-> ->]. exists true. split; [|done].
      by eapply routed_unmatched.
    + assert (s' = s2 /\
              acc' = if passthrough self then add_event event acc else acc)
        as [-> ->]
        by (destruct (passthrough self); by apply ret_returns in Hret as [-> ->]).
      exists (passthrough self). split; [by eapply routed_matched|done].
  - intros (forwarded & Hr & ->).
    inversion Hr as [? ? t cbs Ht Hkey Hd|? s1 ? t before c after self Ht Hkey Hd Hc Hs];
      subst.
    + exists s, t. split; [by apply load_table_returns|]. rewrite Hkey.
      apply bind_returns. exists s', None. split; [|by apply ret_returns].
      apply first_match_spec. by left.
    + exists s, t. split; [by apply load_table_returns|]. rewrite Hkey.
      apply bind_returns. exists s', (Some (passthrough self)). split.
      * apply first_match_spec. right. by exists before, c, after, s1, self.
      * destruct (passthrough self); by apply ret_returns.
Qed.

Lemma add_events_cons e es b : add_events (e :: es) b = add_events es (add_event e b).
Proof. done. Qed.

Lemma apply_to_events_spec tbl key events : forall acc s s' acc',
  apply_to_events ext tbl key acc events s = (s', inr acc') <->
  exists kept,
    routed_events ext tbl key events s s' kept /\ acc' = add_events kept acc.
Proof.
  induction events as [|event events IH]; intros acc s s' acc'.
  - simpl. rewrite ret_returns. split.
    + intros [-> ->]. exists []. split; [constructor|done].
    + intros (kept & Hr & ->). by inversion Hr.
  - simpl. rewrite bind_returns. split.
    + intros (s1 & p & Hev & Hrest).
      apply apply_to_event_spec in Hev as (forwarded & Hr & ->).
      apply IH in Hrest as (kept & Hrs & ->).
      exists (if forwarded then event :: kept else kept).
      split; [by econstructor|]. by destruct forwarded.
    + intros (kept & Hr & ->).
      inversion Hr as [|? ? ? s1 ? forwarded kept' Hev Hrest]; subst.
      exists s1, (if forwarded then add_event event acc else acc). split.
      * apply apply_to_event_spec. by exists forwarded.
      * apply IH. exists kept'. split; [done|]. by destruct forwarded.
Qed.

Lemma apply_to_types_spec tbl items : forall acc s s' acc',
  apply_to_types ext tbl acc items s = (s', inr acc') <->
  exists kept, routed_bundle ext tbl items s s' kept /\ acc' = add_events kept acc.
Proof.
  induction items as [|[key events] items IH]; intros acc s s' acc'.
  - simpl. rewrite ret_returns. split.
    + intros [-> ->]. exists []. split; [constructor|done].
    + intros (kept & Hr & ->). by inversion Hr.
  - simpl. rewrite bind_returns. split.
    + intros (s1 & p & Hty & Hrest).
      apply bind_returns in Hty as (s0 & t & Hload & Hty).
      apply load_table_returns in Hload as [-> Ht].
      apply IH in Hrest as (kept2 & Hrs & ->).
      case_decide as Hkey.
      * apply apply_to_events_spec in Hty as (kept1 & Hr1 & ->).
        exists (kept1 ++ kept2). split; [by eapply routed_bundle_entry|].
        by rewrite add_events_app.
      * apply ret_returns in Hty as [-> ->].
        exists (events ++ kept2). split; [|by rewrite add_events_app].
        eapply routed_bundle_no_entry; [done| |done].
        destruct (t !! key); [|done]. exfalso. by apply Hkey.
    + intros (kept & Hr & ->).
      inversion Hr as [|? ? ? ? ? t kept2 Ht Hkey Hrest
                       |? ? ? ? s1 ? t kept1 kept2 Ht Hkey Hevs Hrest]; subst.
      * exists s, (add_events events acc). split.
        -- apply bind_returns. exists s, t. split; [by apply load_table_returns|].
           rewrite decide_False; [by apply ret_returns|].
           rewrite Hkey. by intros [? ?].
        -- apply IH. exists kept2. split; [done|]. by rewrite add_events_app.
      * exists s1, (add_events kept1 acc). split.
        -- apply bind_returns. exists s, t. split; [by apply load_table_returns|].
           rewrite decide_True; [|done].
           apply apply_to_events_spec. by exists kept1.
        -- apply IH. exists kept2. split; [done|]. by rewrite add_events_app.
Qed.

End RoutingFacts.

(** C3: [_apply_callbacks] returns exactly when the bundle can be routed as
    the claim says, and then returns the bundle of the events that the
    routing forwards: an event is forwarded if and only if its key is not in
    the table, or no callback of its key returns true, or the first one that
    returns true has a true [passthrough()]; after a callback has returned
    true no further callback is called for the event. *)
Theorem passthrough_semantics ext event_bundle callbacks_ref s s' out :
  _apply_callbacks ext event_bundle callbacks_ref s = (s', inr out) <->
  exists kept,
    routed_bundle ext callbacks_ref event_bundle s s' kept /\
    out = add_events kept [].
Proof.
  unfold _apply_callbacks.
  exact (apply_to_types_spec ext callbacks_ref event_bundle [] s s' out).
Qed.

Lemma passthrough_semantics_witness :
  exists s' kept,
    routed_bundle example_world 1%nat example_create_bundle started_runner s' kept /\
    add_events kept []
    = [("ApiRunFragmentStateEventCreate", [ERunFragmentStateCreate 7 10 RS_RUNNING]);
       ("ApiProxyStateEventCreate", [EOther "ApiProxyStateEventCreate"])].
Proof.
  destruct (proj1 (passthrough_semantics example_world example_create_bundle 1%nat
                     started_runner
                     (_apply_callbacks example_world example_create_bundle 1%nat
                        started_runner).1
                     [("ApiRunFragmentStateEventCreate",
                       [ERunFragmentStateCreate 7 10 RS_RUNNING]);
                      ("ApiProxyStateEventCreate", [EOther "ApiProxyStateEventCreate"])]))
    as (kept & Hrouted & Hout).
  - vm_compute. reflexivity.
  - eexists. exists kept. split; [exact Hrouted|]. symmetry. exact Hout.
Defined.

(** ** The artifact uploader *)

(** C6: when a [RunFragmentOutputArtifactCallback] is called with an output
    artifact event of its run whose payload decodes, it uploads exactly the
    decoded bytes under the name that the event carries, returns true, and
    has a false [passthrough()]; so the router, reaching it in the set of
    the event's key, does not add the event to the bundle it forwards, and
    a turn of the router on a create bundle with this event alone makes the
    upload and no [create_events] call. *)
Theorem artifact_fidelity ext s c self run_id run_fragment_id
  output_artifact output_artifact_name data :
  callbacks s !! c = Some self ->
  kind self = RunFragmentOutputArtifactCallback run_id ->
  b64decode ext output_artifact = Some data ->
  let event :=
    ERunFragmentOutputArtifactCreate run_id run_fragment_id
      output_artifact output_artifact_name in
  let s' :=
    with_trace
      (fun t => t ++ [set_run_fragment_output_artifact_raw
                        run_fragment_id output_artifact_name data]) s in
  callback ext c event s = (s', inr true) /\
  passthrough self = false /\
  (forall s0 tbl key t before after acc,
     tables s0 !! tbl = Some t ->
     t !! key = Some (before ++ c :: after) ->
     all_decline ext event before s0 s ->
     apply_to_event ext tbl key acc event s0 = (s', inr acc)) /\
  (forall fragment_runner t after,
     tables s !! create_event_handlers fragment_runner = Some t ->
     t !! event_discriminator event = Some (c :: after) ->
     _handle_fragment_runner_events_turn ext fragment_runner ApiEventCreate
       [(event_discriminator event, [event])] s
     = (s', inr tt)).
Proof.
  intros Hself Hkind Hdata event s'.
  assert (Hcall : callback ext c event s = (s', inr true)).
  { unfold callback, mbind, M_bind, load_callback. rewrite Hself, Hkind. simpl.
    rewrite decide_False; [|by intros []]. by rewrite Hdata. }
  assert (Hpass : passthrough self = false) by (unfold passthrough; by rewrite Hkind).
  split; [exact Hcall|]. split; [exact Hpass|]. split.
  - intros s0 tbl key t before after acc Ht Hkey Hd.
    apply apply_to_event_spec. exists false. split; [|done].
    rewrite <- Hpass. by eapply routed_matched.
  - intros fragment_runner t after Ht Hkey.
    unfold _handle_fragment_runner_events_turn.
    apply bind_returns. exists s', None. split; [|done].
    apply bind_returns. exists s', []. split; [|done].
    assert (Hev : routed_events ext (create_event_handlers fragment_runner)
                    (event_discriminator event) [event] s s'
                    (if passthrough self then [event] else [])).
    { econstructor; [|constructor].
      eapply (routed_matched ext _ _ _ s s s' t [] c after self); try done.
      constructor. }
    rewrite Hpass in Hev.
    unfold _apply_callbacks.
    apply (proj2 (apply_to_types_spec ext (create_event_handlers fragment_runner)
                    [(event_discriminator event, [event])] [] s s' [])).
    exists ([] ++ []). split; [|done].
    eapply routed_bundle_entry; [exact Ht|by rewrite Hkey|exact Hev|constructor].
Qed.

Lemma artifact_fidelity_witness :
  callback example_world 13%nat example_artifact_event started_runner
  = (with_trace
       (fun t => t ++ [set_run_fragment_output_artifact_raw 10 "out.bin"
                         [Byte.x68; Byte.x65; Byte.x6c; Byte.x6c; Byte.x6f]])
       started_runner,
     inr true).
Proof.
  eapply (artifact_fidelity example_world started_runner 13%nat).
  - vm_compute. reflexivity.
  - reflexivity.
  - vm_compute. reflexivity.
Defined.

(** ** Run events *)




Lemma dict_mem_false {V} (k : Z) (d : list (Z * V)) :
  dict_mem k d = false <-> dict_get k d = None.
Proof.
  unfold dict_mem. rewrite bool_decide_eq_false.
  destruct (dict_get k d) as [v|]; split; intros H; try done.
  exfalso. apply H. by exists v.
Qed.

(** The body of the loop of [_handle_run_events], case by case. *)
Lemma handle_run_event_unfold ext updates event s run_id :
  re_run_id event = Some run_id ->
  handle_run_event ext updates (ERunRead event) s
  = let update := run_event_update s event in
    let cancelled :=
      (s, inr (add_event (EUpdate (set_event_status CANCELLED update)) updates)) in
    let broadcast :=
      if dict_mem run_id (_run_map s) then
        match _send_events_aggregate_updates run_id event "ApiRunEventUpdate" update s with
        | (s', inr _) => (s', inr updates)
        | (s', inl e) => (s', inl e)
        end
      else cancelled in
    match re_run_event_type event with
    | KILL | SIMULATION_STATUS => broadcast
    | START_RUN =>
        if bool_decide (re_event_discriminator event = "ApiRunEventStartRunRead") then
          match re_start event with
          | None => (s, inl ValidationError)
          | Some p =>
              if dict_mem run_id (_run_map s) then cancelled
              else
                match _start_run ext run_id event p update s with
                | (s', inr _) => (s', inr updates)
                | (s', inl _) =>
                    (with_trace (fun t => t ++ [rc_update_run run_id RS_ERROR ""]) s',
                     inr (add_event (EUpdate (set_event_status ERROR update)) updates))
                end
          end
        else (s, inl AssertionError)
    end.
Proof.
  intros Hid. unfold handle_run_event, mbind, M_bind, get_self, run_event_update.
  rewrite Hid. simpl.
  destruct (re_run_event_type event);
    try (destruct (dict_mem run_id (_run_map s)); simpl; [|done];
         by destruct (_send_events_aggregate_updates _ _ _ _ s) as [s' [e|[]]]).
  destruct (bool_decide (re_event_discriminator event = "ApiRunEventStartRunRead"));
    simpl; [|done].
  destruct (re_start event) as [p|]; [|done].
  destruct (dict_mem run_id (_run_map s)); [done|].
  unfold try_except, mbind, M_bind.
  by destruct (_start_run ext run_id event p _ s) as [s' [e|[]]].
Qed.

Lemma _handle_run_events_one ext event updates s :
  _handle_run_events ext [event] updates s = handle_run_event ext updates event s.
Proof.
  simpl. unfold mbind, M_bind.
  by destruct (handle_run_event ext updates event s) as [s' [e|u]].
Qed.





(** ** Failed starts *)

(** C5 at a start that fails after the run has been registered: the only
    fragment of the start-run event has an input artifact, and fetching it
    from the backend raises.  The runner reports [RunState.ERROR] with
    [update_run] and marks the update [ERROR], but the run, which was not in
    the registry before, is in it afterwards. *)
Theorem start_failure_keeps_run :
  (_handle_run_events example_world
     [ERunRead (example_start_event [fragment_without_artifact])] [] example_runner).2
  = inr [("ApiRunEventUpdate",
          [EUpdate {| upd_discriminator := "ApiRunEventUpdate"; upd_id := 5;
                      upd_runner_id := 1; upd_run_id := Some 7;
                      upd_event_status := Some ERROR |}])] /\
  trace (_handle_run_events example_world
           [ERunRead (example_start_event [fragment_without_artifact])] []
           example_runner).1
  = [plugin_start "plugins.local" [] "p2";
     get_fragment_input_artifact_raw 3 21;
     rc_update_run 7 RS_ERROR ""] /\
  dict_get 7 (_run_map example_runner) = None /\
  is_Some (dict_get 7
             (_run_map (_handle_run_events example_world
                          [ERunRead (example_start_event [fragment_without_artifact])]
                          [] example_runner).1)).
Proof.
  split; [vm_compute; reflexivity|].
  split; [vm_compute; reflexivity|].
  split; [vm_compute; reflexivity|].
  vm_compute. eauto.
Qed.

(** Whatever [_start_run] raises, the runner reports [RunState.ERROR] for
    the run and adds the update, marked [ERROR], to the batch; the store is
    otherwise as the failed start left it. *)
Lemma start_failure_reported ext s s1 e event run_id p updates :
  re_run_id event = Some run_id ->
  re_run_event_type event = START_RUN ->
  re_event_discriminator event = "ApiRunEventStartRunRead" ->
  re_start event = Some p ->
  dict_get run_id (_run_map s) = None ->
  _start_run ext run_id event p (run_event_update s event) s = (s1, inl e) ->
  _handle_run_events ext [ERunRead event] updates s
  = (with_trace (fun t => t ++ [rc_update_run run_id RS_ERROR ""]) s1,
     inr (add_event (EUpdate (set_event_status ERROR (run_event_update s event)))
                    updates)).
Proof.
  intros Hid Hty Hd Hp Hout Hfail. apply dict_mem_false in Hout.
  rewrite _handle_run_events_one, (handle_run_event_unfold _ _ _ _ _ Hid).
  cbv zeta. rewrite Hty, Hd, Hp, Hout, Hfail. by rewrite bool_decide_eq_true_2.
Qed.

(** ** The default executor *)

Lemma dict_get_set_eq {K V} `{EqDecision K} (k : K) (v : V) (d : list (K * V)) :
  dict_get k (dict_set k v d) = Some v.
Proof.
  induction d as [|[k' v'] d IH]; simpl.
  - by rewrite decide_True.
  - destruct (decide (k = k')) as [->|Hne]; simpl.
    + by rewrite decide_True.
    + by rewrite decide_False.
Qed.

Lemma dict_get_set_ne {K V} `{EqDecision K} (k k' : K) (v : V) (d : list (K * V)) :
  k ≠ k' -> dict_get k (dict_set k' v d) = dict_get k d.
Proof.
  intros Hne. induction d as [|[k0 v0] d IH]; simpl.
  - by rewrite decide_False.
  - destruct (decide (k' = k0)) as [->|Hne0]; simpl.
    + by rewrite !decide_False.
    + destruct (decide (k = k0)); [done|exact IH].
Qed.

Section DefaultExecutor.
Context (ext : External).

(** Loading one entry appends its name to the available executors. *)
Lemma load_executor_available loaded executor s s' loaded' :
  load_executor ext loaded executor s = (s', inr loaded') ->
  exists executor_name',
    executor_name executor = Some executor_name' /\
    _available_fragment_executors s'
    = _available_fragment_executors s ++ [executor_name'].
Proof.
  unfold load_executor.
  destruct executor as [| |l|[|[n [| | |data]] [|]]]; try discriminate.
  destruct (dict_get "plugin" data) as [plugin|]; [|discriminate].
  intros H. apply bind_returns in H as (s1 & settings & Hset & H).
  assert (s1 = s) as ->.
  { destruct (dict_get "settings" data) as [[| | |]|]; try discriminate;
      by apply ret_returns in Hset as [-> _]. }
  destruct plugin as [|plugin| |]; try discriminate.
  apply bind_returns in H as (s2 & loaded2 & Hload & H).
  assert (s2 = s) as ->.
  { case_decide; [by apply ret_returns in Hload as [-> _]|].
    destruct (load_plugin ext plugin); [|discriminate].
    by apply ret_returns in Hload as [-> _]. }
  unfold mbind, M_bind, get_self in H.
  destruct (dict_mem n (_fragment_executor_configs s)); [discriminate|].
  injection H as <- _. by exists n.
Qed.

Lemma load_executors_available executors : forall loaded s s',
  load_executors ext loaded executors s = (s', inr tt) ->
  _available_fragment_executors s'
  = _available_fragment_executors s ++ omap executor_name executors /\
  Forall (fun executor => is_Some (executor_name executor)) executors.
Proof.
  induction executors as [|executor executors IH]; intros loaded s s' H.
  - apply ret_returns in H as [-> _]. by rewrite app_nil_r.
  - simpl in H. apply bind_returns in H as (s1 & loaded1 & Hone & Hrest).
    apply load_executor_available in Hone as (n & Hn & Hs1).
    apply IH in Hrest as [Hs' Hall].
    split.
    + rewrite Hs', Hs1. simpl. rewrite Hn. by rewrite <- app_assoc.
    + constructor; [by rewrite Hn|done].
Qed.

(** After the configuration has been loaded, the available executors are
    the names of the entries of the file, in the order of the file. *)
Lemma _load_configuration_available ident d executors s :
  _load_configuration ext (YDict d) (MainRunner_init ident) = (s, inr tt) ->
  dict_get "fragment_executors" d = Some (YList executors) ->
  _available_fragment_executors s = omap executor_name executors /\
  Forall (fun executor => is_Some (executor_name executor)) executors.
Proof.
  intros Hload Hd. unfold _load_configuration in Hload. rewrite Hd in Hload.
  apply bind_returns in Hload as (s1 & [] & Hex & Hrest).
  apply load_executors_available in Hex as [Hav Hall]. split; [|exact Hall].
  apply bind_returns in Hrest as (s2 & s3 & Hget & Hloop).
  injection Hget as <- <-.
  assert (Hkeep : forall names s0 s0',
             for_each names
               (fun fragment_executor =>
                  update_self (with_fragment_runners (dict_set fragment_executor [])))
               s0 = (s0', inr tt) ->
             _available_fragment_executors s0' = _available_fragment_executors s0).
  { induction names as [|n names IH]; intros s0 s0' H.
    - by apply ret_returns in H as [-> _].
    - simpl in H. apply bind_returns in H as (s4 & [] & Hone & H).
      injection Hone as <-. by rewrite (IH _ _ H). }
  by rewrite (Hkeep _ _ _ Hloop), Hav.
Qed.

(** What the resolution of a tag returns, when it returns. *)
Lemma resolve_executor_tag_returns fragment_runner_map rf s s' tag :
  resolve_executor_tag fragment_runner_map rf s = (s', inr tag) ->
  s' = s /\
  (rf_fragment_executor_tag rf = None ->
   head (_available_fragment_executors s) = Some tag).
Proof.
  unfold resolve_executor_tag, mbind, M_bind, get_self.
  destruct (rf_fragment_executor_tag rf) as [t|].
  - destruct (dict_mem t (_fragment_executor_configs s)).
    + intros [= <- <-]. done.
    + by destruct (_stop_fragment_runners fragment_runner_map s) as [s1 [e|[]]].
  - destruct (_available_fragment_executors s) as [|first rest]; [discriminate|].
    intros [= <- <-]. done.
Qed.

(** A runner that has been started bears the name it was started for; the
    configuration of the main runner is what it was. *)
Lemma _start_fragment_runner_returns executor parameters s s' fragment_runner :
  _start_fragment_runner ext executor parameters s = (s', inr fragment_runner) ->
  name fragment_runner = executor /\
  _available_fragment_executors s' = _available_fragment_executors s.
Proof.
  unfold _start_fragment_runner, mbind, M_bind, get_self.
  destruct (dict_get executor (_fragment_executor_configs s)) as [config|]; [|discriminate].
  unfold call, update_self.
  destruct (plugin_starts ext _ _ _); [|discriminate].
  unfold FragmentRunner_init, new_table, mbind, M_bind, fresh_ref, store_table,
    update_self, mret, M_ret. simpl.
  destruct (dict_get executor (fragment_runners s)) as [rs|]; [|discriminate].
  intros [= <- <-]. done.
Qed.

(** The first loop of [_start_run]: a fragment without a tag gets a runner
    named after the first available executor. *)
Lemma start_fragment_runners_default parameters_map rfs : forall map s s' map',
  start_fragment_runners ext parameters_map map rfs s = (s', inr map') ->
  NoDup (rf_id <$> rfs) ->
  (forall k v, k ∉ rf_id <$> rfs -> dict_get k map = Some v -> dict_get k map' = Some v) /\
  (forall rf, rf ∈ rfs -> rf_fragment_executor_tag rf = None ->
     exists first runner,
       head (_available_fragment_executors s) = Some first /\
       dict_get (rf_id rf) map' = Some runner /\
       name runner = first).
Proof.
  induction rfs as [|rf0 rfs IH]; intros map s s' map' Hrun Hnd.
  - apply ret_returns in Hrun as [-> ->]. split; [done|].
    intros rf Hrf. by apply elem_of_nil in Hrf.
  - simpl in Hrun. apply bind_returns in Hrun as (s1 & tag & Htag & Hrun).
    apply resolve_executor_tag_returns in Htag as [-> Hdefault].
    destruct (dict_get (rf_fragment_object_id rf0) parameters_map) as [parameters|];
      [|discriminate].
    apply bind_returns in Hrun as (s2 & runner & Hstart & Hrun).
    apply _start_fragment_runner_returns in Hstart as [Hname Hav].
    rewrite fmap_cons in Hnd. apply NoDup_cons in Hnd as [Hfresh Hnd].
    destruct (IH _ _ _ _ Hrun Hnd) as [Hkeep Hrest].
    split.
    + intros k v Hk Hget. apply Hkeep.
      * intros Hin. apply Hk. rewrite fmap_cons. by right.
      * rewrite dict_get_set_ne; [done|]. intros ->. apply Hk.
        rewrite fmap_cons. by left.
    + intros rf Hrf Hnone. apply elem_of_cons in Hrf as [->|Hrf].
      * exists tag, runner. split; [by apply Hdefault|]. split; [|done].
        apply Hkeep; [done|]. apply dict_get_set_eq.
      * destruct (Hrest rf Hrf Hnone) as (first & runner' & Hhead & Hget & Hn).
        exists first, runner'. by rewrite <- Hav.
Qed.

End DefaultExecutor.

(** C8: once the configuration has been loaded, the available executors
    are the entries of the file in the order of the file; and whenever the
    first loop of [_start_run] returns in a runner with these executors,
    each fragment of the event without an executor tag has a fragment
    runner that bears the name of the first entry of the file. *)
Theorem default_tag_selection ext ident d executors s :
  _load_configuration ext (YDict d) (MainRunner_init ident) = (s, inr tt) ->
  dict_get "fragment_executors" d = Some (YList executors) ->
  _available_fragment_executors s = omap executor_name executors /\
  length (_available_fragment_executors s) = length executors /\
  (forall s1 parameters_map rfs s2 fragment_runner_map,
     _available_fragment_executors s1 = _available_fragment_executors s ->
     start_fragment_runners ext parameters_map [] rfs s1 = (s2, inr fragment_runner_map) ->
     NoDup (rf_id <$> rfs) ->
     forall rf, rf ∈ rfs -> rf_fragment_executor_tag rf = None ->
       exists first runner,
         (head executors) ≫= executor_name = Some first /\
         dict_get (rf_id rf) fragment_runner_map = Some runner /\
         name runner = first).
Proof.
  intros Hload Hd.
  destruct (_load_configuration_available ext ident d executors s Hload Hd) as [Hav Hall].
  split; [exact Hav|]. split.
  - rewrite Hav. clear -Hall. induction Hall as [|e es [n Hn] _ IH]; [done|].
    change (omap executor_name (e :: es))
      with (match executor_name e with
            | Some y => y :: omap executor_name es
            | None => omap executor_name es
            end).
    rewrite Hn. simpl. by f_equal.
  - intros s1 parameters_map rfs s2 fragment_runner_map Hs1 Hrun Hnd rf Hrf Hnone.
    destruct (start_fragment_runners_default ext parameters_map rfs [] s1 s2
                fragment_runner_map Hrun Hnd) as [_ Hdef].
    destruct (Hdef rf Hrf Hnone) as (first & runner & Hhead & Hget & Hname).
    exists first, runner. split; [|done].
    rewrite Hs1, Hav in Hhead. clear -Hhead Hall.
    destruct Hall as [|e es [n Hn] _]; [done|].
    change (omap executor_name (e :: es))
      with (match executor_name e with
            | Some y => y :: omap executor_name es
            | None => omap executor_name es
            end) in Hhead.
    simpl. rewrite Hn in *. done.
Qed.

Lemma default_tag_selection_witness :
  exists s2 fragment_runner_map runner,
    start_fragment_runners example_world [(1, "p1"); (2, "p2")] []
      [example_fragment 10 1 None; example_fragment 11 2 (Some "docker")]
      example_runner
    = (s2, inr fragment_runner_map) /\
    dict_get 10 fragment_runner_map = Some runner /\
    name runner = "local".
Proof.
  destruct (start_fragment_runners example_world [(1, "p1"); (2, "p2")] []
              [example_fragment 10 1 None; example_fragment 11 2 (Some "docker")]
              example_runner) as [s2 [e|fragment_runner_map]] eqn:Hrun.
  { vm_compute in Hrun. discriminate. }
  destruct (default_tag_selection example_world 1
              [("fragment_executors", YList example_executors)]
              example_executors example_runner) as (_ & _ & Hdefault).
  - vm_compute. reflexivity.
  - reflexivity.
  - assert (Hnd : NoDup (rf_id <$> [example_fragment 10 1 None;
                                       example_fragment 11 2 (Some "docker")])).
    { apply (bool_decide_unpack _). vm_compute. exact I. }
    destruct (Hdefault example_runner _ _ _ _ eq_refl Hrun Hnd
                (example_fragment 10 1 None))
      as (first & runner & Hfirst & Hget & Hname).
    + by left.
    + reflexivity.
    + exists s2, fragment_runner_map, runner. split; [done|]. split; [done|].
      injection Hfirst as <-. done.
Defined.

(** ** The sweep *)

(** *** What the steps of a teardown leave alone *)

Lemma same_registry_refl s : same_registry s s.
Proof. done. Qed.

Lemma same_registry_trans s1 s2 s3 :
  same_registry s1 s2 -> same_registry s2 s3 -> same_registry s1 s3.
Proof. intros (H1 & H2 & H3) (H4 & H5 & H6). repeat split; congruence. Qed.

Lemma unregister_from_frame c et h s :
  let s' := (unregister_from c et h s).1 in
  same_registry s s' /\ trace s' = trace s /\ fragment_runners s' = fragment_runners s.
Proof.
  unfold unregister_from, mbind, M_bind, load_table.
  destruct (tables s !! h) as [t|]; [|done].
  destruct (t !! et) as [l|]; [|done].
  by destruct (set_remove c l).
Qed.

Lemma for_each_unregister_frame c et hs : forall s,
  let s' := (for_each hs (unregister_from c et) s).1 in
  same_registry s s' /\ trace s' = trace s /\ fragment_runners s' = fragment_runners s.
Proof.
  induction hs as [|h hs IH]; intros s; [done|].
  simpl. unfold mbind, M_bind.
  pose proof (unregister_from_frame c et h s) as (Hr & Ht & Hf).
  destruct (unregister_from c et h s) as [s1 [e|[]]]; simpl in *; [done|].
  destruct (IH s1) as (Hr' & Ht' & Hf').
  split; [by eapply same_registry_trans|]. split; congruence.
Qed.

Lemma remove_callback_frame c s :
  let s' := (remove_callback c s).1 in
  same_registry s s' /\ trace s' = trace s /\ fragment_runners s' = fragment_runners s.
Proof.
  unfold remove_callback, mbind, M_bind, load_callback.
  destruct (callbacks s !! c) as [cb|]; [|done].
  apply for_each_unregister_frame.
Qed.






(** *** What a method keeps, however it ends *)

Lemma bind_outcome {A B} (m : M A) (k : A -> M B) s s' r :
  (m ≫= k) s = (s', r) ->
  (exists e, m s = (s', inl e) /\ r = inl e) \/
  (exists s1 a, m s = (s1, inr a) /\ k a s1 = (s', r)).
Proof.
  unfold mbind, M_bind. destruct (m s) as [s1 [e|a]].
  - intros [= <- <-]. left. by exists e.
  - intros H. right. by exists s1, a.
Qed.

#[local] Instance same_registry_preorder : PreOrder same_registry.
Proof.
  split; [exact same_registry_refl|].
  intros a b c. apply same_registry_trans.
Qed.

#[local] Instance same_read_tasks_preorder : PreOrder same_read_tasks.
Proof.
  split; [done|]. intros a b c H1 H2. unfold same_read_tasks in *. congruence.
Qed.

#[local] Instance registry_grows_preorder : PreOrder registry_grows.
Proof.
  split; [done|].
  intros a b c [H1 H2] [H3 H4]. split; [congruence|]. intros r Hr. by apply H4, H2.
Qed.

Section Keeps.
Context (R : MainRunner -> MainRunner -> Prop) `{!PreOrder R}.

Lemma keeps_ret {A} (a : A) : keeps R (mret a).
Proof. intros s s' r [= <- _]. reflexivity. Qed.

Lemma keeps_raise {A} e : keeps R (raise (A := A) e).
Proof. intros s s' r [= <- _]. reflexivity. Qed.

Lemma keeps_get_self : keeps R get_self.
Proof. intros s s' r [= <- _]. reflexivity. Qed.

Lemma keeps_update_self f : (forall s, R s (f s)) -> keeps R (update_self f).
Proof. intros Hf s s' r [= <- _]. apply Hf. Qed.

Lemma keeps_bind {A B} (m : M A) (k : A -> M B) :
  keeps R m -> (forall a, keeps R (k a)) -> keeps R (m ≫= k).
Proof.
  intros Hm Hk s s' r H.
  apply bind_outcome in H as [(e & H & _)|(s1 & a & H1 & H2)].
  - by eapply Hm.
  - transitivity s1; [by eapply Hm|by eapply Hk].
Qed.

Lemma keeps_for_each {A} (xs : list A) (body : A -> M unit) :
  (forall x, keeps R (body x)) -> keeps R (for_each xs body).
Proof.
  intros Hbody. induction xs as [|x xs IH]; [apply keeps_ret|].
  cbn [for_each]. apply keeps_bind; [apply Hbody|]. intros _. exact IH.
Qed.

Lemma keeps_load_table h : keeps R (load_table h).
Proof.
  intros s s' r. unfold load_table.
  destruct (tables s !! h); intros [= <- _]; reflexivity.
Qed.

Lemma keeps_load_run h : keeps R (load_run h).
Proof.
  intros s s' r. unfold load_run.
  destruct (runs s !! h); intros [= <- _]; reflexivity.
Qed.

End Keeps.

(** *** Stopping the runners *)

Lemma forget_runner_known s runner :
  runner_known s runner ->
  exists rs,
    dict_get (name runner) (fragment_runners s) = Some rs /\
    forget_runner runner s
    = (with_fragment_runners
         (dict_set (name runner) (filter (fun y => y ≠ runner) rs)) s,
       inr tt).
Proof.
  intros (rs & Hrs & Hin). exists rs. split; [done|].
  unfold forget_runner, mbind, M_bind, get_self. rewrite Hrs.
  unfold set_remove. by rewrite decide_True.
Qed.

Lemma forget_runner_others s runner rs other :
  dict_get (name runner) (fragment_runners s) = Some rs ->
  other ≠ runner ->
  runner_known s other ->
  runner_known
    (with_fragment_runners (dict_set (name runner) (filter (fun y => y ≠ runner) rs)) s)
    other.
Proof.
  intros Hrs Hne (rs' & Hrs' & Hin). unfold runner_known. simpl.
  destruct (decide (name other = name runner)) as [Heq|Hnm].
  - rewrite Heq in *. rewrite Hrs in Hrs'. injection Hrs' as <-.
    exists (filter (fun y => y ≠ runner) rs). rewrite dict_get_set_eq.
    split; [done|]. by apply list_elem_of_filter.
  - exists rs'. by rewrite dict_get_set_ne.
Qed.

(** The first loop of [_stop_fragment_runners] on distinct, known runners. *)
Lemma for_each_forget runners : forall s,
  NoDup runners ->
  (forall runner, runner ∈ runners -> runner_known s runner) ->
  exists s',
    for_each runners forget_runner s = (s', inr tt) /\
    same_registry s s' /\ tables s' = tables s /\ trace s' = trace s /\
    (forall other, other ∉ runners -> runner_known s other -> runner_known s' other).
Proof.
  induction runners as [|runner runners IH]; intros s Hnd Hknown.
  - exists s. repeat split; done.
  - apply NoDup_cons in Hnd as [Hnotin Hnd].
    destruct (forget_runner_known s runner) as (rs & Hrs & Hrun); [apply Hknown; by left|].
    simpl. unfold mbind, M_bind. rewrite Hrun.
    set (s1 := with_fragment_runners _ s).
    destruct (IH s1 Hnd) as (s' & Hrest & Hreg & Htb & Htr & Hothers).
    { intros other Hin. apply forget_runner_others; [done| |apply Hknown; by right].
      by intros ->. }
    exists s'. split; [exact Hrest|]. split; [by eapply same_registry_trans|].
    split; [by rewrite Htb|]. split; [by rewrite Htr|].
    intros other Hnot Hk. apply Hothers.
    + intros Hin. apply Hnot. by right.
    + apply forget_runner_others; [done| |done]. intros ->. apply Hnot. by left.
Qed.



Lemma keeps_forget_runner_tasks runner : keeps same_read_tasks (forget_runner runner).
Proof.
  unfold forget_runner. apply (keeps_bind same_read_tasks);
    [apply (keeps_get_self same_read_tasks)|].
  intros s. destruct (dict_get _ _); [|apply (keeps_raise same_read_tasks)].
  destruct (set_remove _ _); [|apply (keeps_raise same_read_tasks)].
  by apply (keeps_update_self same_read_tasks).
Qed.

(** What [stop] does, by the state of the reader task: the tables are
    cleared in every case, the plug-in is stopped unless the task is
    missing or has failed. *)
Lemma stop_unfold runner s :
  stop runner s =
  let s0 :=
    with_tables
      (fun t => <[query_event_handlers runner := ∅]>
                  (<[delete_event_handlers runner := ∅]>
                     (<[update_event_handlers runner := ∅]>
                        (<[create_event_handlers runner := ∅]> t)))) s in
  match read_tasks s !! fr_ident runner with
  | None => (s0, inl AttributeError)
  | Some Pending =>
      (with_trace (fun t => t ++ [plugin_stop (fr_ident runner)])
         (with_read_tasks (insert (fr_ident runner) Cancelled) s0), inr tt)
  | Some Cancelled =>
      (with_trace (fun t => t ++ [plugin_stop (fr_ident runner)]) s0, inr tt)
  | Some (Failed e) => (s0, inl e)
  end.
Proof.
  unfold stop, cancel_read_task, store_table, call, update_self, mbind, M_bind, get_self.
  cbn [read_tasks with_tables].
  destruct (read_tasks s !! fr_ident runner) as [[| |e]|]; reflexivity.
Qed.

(** However [stop] ends, it leaves the registry and [fragment_runners] as
    they are, touches no table of another runner, and makes no reader fail. *)
Lemma stop_frame runner s :
  let s' := (stop runner s).1 in
  same_registry s s' /\ fragment_runners s' = fragment_runners s /\
  (forall h, h ∉ runner_tables runner -> tables s' !! h = tables s !! h) /\
  (forall other, reader_alive s other -> reader_alive s' other).
Proof.
  rewrite stop_unfold. cbv zeta.
  assert (Htb : forall h, h ∉ runner_tables runner ->
            (<[query_event_handlers runner := ∅]>
               (<[delete_event_handlers runner := ∅]>
                  (<[update_event_handlers runner := ∅]>
                     (<[create_event_handlers runner := (∅ : HandlerTable)]> (tables s)))))
              !! h = tables s !! h).
  { intros h Hh. unfold runner_tables in Hh.
    rewrite !not_elem_of_cons in Hh. destruct Hh as (? & ? & ? & ? & _).
    by rewrite !lookup_insert_ne. }
  destruct (read_tasks s !! fr_ident runner) as [[| |e]|] eqn:Htask;
    (split; [done|]); (split; [done|]); (split; [exact Htb|]); try done.
  intros other Hother. unfold reader_alive. simpl.
  destruct (decide (fr_ident other = fr_ident runner)) as [->|Hne].
  - right. by rewrite lookup_insert_eq.
  - by rewrite lookup_insert_ne.
Qed.

(** [stop] on a runner whose reader has not failed returns; it empties the
    four tables of the runner and calls the plug-in. *)
Lemma stop_spec runner s :
  reader_alive s runner ->
  exists s',
    stop runner s = (s', inr tt) /\
    same_registry s s' /\ fragment_runners s' = fragment_runners s /\
    trace s' = trace s ++ [plugin_stop (fr_ident runner)] /\
    (forall h, h ∉ runner_tables runner -> tables s' !! h = tables s !! h) /\
    (forall other, reader_alive s other -> reader_alive s' other).
Proof.
  intros Halive.
  destruct (stop_frame runner s) as (Hreg & Hfr & Htb & Hal).
  assert (Hrun : exists s', stop runner s = (s', inr tt) /\
                            trace s' = trace s ++ [plugin_stop (fr_ident runner)]).
  { rewrite stop_unfold. cbv zeta.
    destruct Halive as [-> | ->]; eexists; (split; [reflexivity|done]). }
  destruct Hrun as (s' & Hrun & Htr). rewrite Hrun in Hreg, Hfr, Htb, Hal.
  exists s'. done.
Qed.

(** The stop tasks of runners whose readers have not failed, gathered. *)
Lemma gather_stop runners : forall s,
  (forall runner, runner ∈ runners -> reader_alive s runner) ->
  exists s',
    gather (stop <$> runners) s = (s', inr tt) /\
    same_registry s s' /\ fragment_runners s' = fragment_runners s /\
    trace s' = trace s ++ ((fun runner => plugin_stop (fr_ident runner)) <$> runners) /\
    (forall h, (forall runner, runner ∈ runners -> h ∉ runner_tables runner) ->
               tables s' !! h = tables s !! h) /\
    (forall other, reader_alive s other -> reader_alive s' other).
Proof.
  induction runners as [|runner runners IH]; intros s Halive.
  - exists s. split; [done|]. split; [done|]. split; [done|].
    split; [by rewrite app_nil_r|done].
  - destruct (stop_spec runner s) as (s1 & Hone & Hreg1 & Hf1 & Htr1 & Htb1 & Hal1);
      [apply Halive; by left|].
    destruct (IH s1) as (s' & Hrest & Hreg & Hf & Htr & Htb & Hal).
    { intros runner' Hin. apply Hal1, Halive. by right. }
    exists s'. split.
    { rewrite fmap_cons. cbn [gather]. by rewrite Hone. }
    split; [by eapply same_registry_trans|]. split; [congruence|].
    split; [rewrite Htr, Htr1, fmap_cons; by rewrite <- app_assoc|].
    split.
    + intros h Hh. rewrite Htb, Htb1; [done| |].
      * apply Hh. by left.
      * intros runner' Hin. apply Hh. by right.
    + intros other Hother. by apply Hal, Hal1.
Qed.


(** *** Tearing one run down *)



Lemma remove_if_set_both a b s :
  (remove_if_set a ;; remove_if_set b) s
  = for_each (option_list a ++ option_list b) remove_callback s.
Proof.
  destruct a as [a|], b as [b|]; simpl; unfold mbind, M_bind, mret, M_ret.
  - destruct (remove_callback a s) as [s1 [e|[]]]; [reflexivity|].
    destruct (remove_callback b s1) as [s2 [e|[]]]; reflexivity.
  - destruct (remove_callback a s) as [s1 [e|[]]]; reflexivity.
  - destruct (remove_callback b s) as [s1 [e|[]]]; reflexivity.
  - reflexivity.
Qed.

Lemma tear_down_unfold k run s :
  tear_down k run s
  = match for_each (run_callbacks run) remove_callback s with
    | (s1, inr _) =>
        match _stop_fragment_runners (fragment_runner_map run) s1 with
        | (s2, inr _) => (with_run_map (dict_del k) s2, inr tt)
        | (s2, inl e) => (s2, inl e)
        end
    | (s1, inl e) => (s1, inl e)
    end.
Proof.
  unfold run_callbacks. rewrite <- remove_if_set_both.
  unfold tear_down, mbind, M_bind.
  destruct (remove_if_set (run_state_callback run) s) as [s0 [e|[]]]; [done|].
  destruct (remove_if_set (output_artifact_callback run) s0) as [s1 [e|[]]]; [done|].
  by destruct (_stop_fragment_runners (fragment_runner_map run) s1) as [s2 [e|[]]].
Qed.



(** *** The registry as a dictionary *)

Lemma dict_get_del_ne {K V} `{EqDecision K} (k k' : K) (d : list (K * V)) :
  k ≠ k' -> dict_get k (dict_del k' d) = dict_get k d.
Proof.
  intros Hne. induction d as [|[k0 v0] d IH]; [done|]. simpl.
  destruct (decide (k' = k0)) as [->|Hne0]; simpl.
  - by rewrite decide_False.
  - destruct (decide (k = k0)); [done|exact IH].
Qed.

Lemma dict_get_None {K V} `{EqDecision K} (k : K) (d : list (K * V)) :
  dict_get k d = None <-> k ∉ dict_keys d.
Proof.
  unfold dict_keys. induction d as [|[k0 v0] d IH]; simpl.
  - split; [intros _ H; by apply elem_of_nil in H|done].
  - rewrite not_elem_of_cons. destruct (decide (k = k0)) as [->|Hne].
    + split; [discriminate|intros [H _]; done].
    + rewrite IH. tauto.
Qed.

Lemma dict_get_del_eq {K V} `{EqDecision K} (k : K) (d : list (K * V)) :
  NoDup (dict_keys d) -> dict_get k (dict_del k d) = None.
Proof.
  unfold dict_keys. induction d as [|[k0 v0] d IH]; [done|]. simpl.
  intros Hnd. apply NoDup_cons in Hnd as [Hnotin Hnd].
  destruct (decide (k = k0)) as [->|Hne].
  - by apply dict_get_None.
  - simpl. rewrite decide_False; [|done]. by apply IH.
Qed.

Lemma all_fragments_finished_true run :
  all_fragments_finished run = true <->
  Forall (fun fragment_state => ~ unfinished fragment_state)
         (dict_values (fragment_run_state run)).
Proof.
  unfold all_fragments_finished, unfinished, RunState_ltb.
  rewrite forallb_forall, Forall_forall. split; intros H st Hst.
  - apply list_elem_of_In in Hst. apply H in Hst.
    apply negb_true_iff, Z.ltb_ge in Hst. lia.
  - apply negb_true_iff, Z.ltb_ge. apply list_elem_of_In, H in Hst. lia.
Qed.


(** *** One run, then all of them *)

Lemma sweep_run_unfold k r run s :
  dict_get k (_run_map s) = Some r ->
  runs s !! r = Some run ->
  sweep_run k s = if all_fragments_finished run then tear_down k run s else (s, inr tt).
Proof.
  intros Hk Hr. unfold sweep_run, mbind, M_bind, get_self, load_run.
  rewrite Hk, Hr. by destruct (all_fragments_finished run).
Qed.





Lemma registered_at_lookup s c et h :
  c ∈ default [] (tables s !! h ≫= fun t => t !! et) ->
  registered_at s c et h.
Proof.
  unfold registered_at. destruct (tables s !! h) as [t|]; simpl.
  - destruct (t !! et) as [l|] eqn:Hl; simpl.
    + intros Hc. by exists t, l.
    + intros H. by apply elem_of_nil in H.
  - intros H. by apply elem_of_nil in H.
Qed.

(** Membership in a list that is written out. *)
Ltac in_list H :=
  repeat (apply elem_of_cons in H as [->|H]);
  try (apply elem_of_nil in H; destruct H).

Ltac by_evaluation := apply (bool_decide_unpack _); vm_compute; exact I.

(** The callbacks of the two runs of the example are registered. *)
Lemma two_runs_callbacks_ready c :
  c ∈ [12%nat; 13%nat; 21%nat; 22%nat] -> callback_ready two_runs_runner c.
Proof.
  intros Hc. in_list Hc.
  - exists {| handlers := [1%nat; 6%nat];
              event_type := "ApiRunFragmentStateEventCreate";
              kind := RunFragmentStateCallback 10%nat |}.
    split; [vm_compute; reflexivity|]. split; [by_evaluation|].
    intros h Hh. in_list Hh; apply registered_at_lookup; by_evaluation.
  - exists {| handlers := [1%nat; 6%nat];
              event_type := "ApiRunFragmentOutputArtifactEventCreate";
              kind := RunFragmentOutputArtifactCallback 7 |}.
    split; [vm_compute; reflexivity|]. split; [by_evaluation|].
    intros h Hh. in_list Hh; apply registered_at_lookup; by_evaluation.
  - exists {| handlers := [15%nat];
              event_type := "ApiRunFragmentStateEventCreate";
              kind := RunFragmentStateCallback 19%nat |}.
    split; [vm_compute; reflexivity|]. split; [by_evaluation|].
    intros h Hh. in_list Hh; apply registered_at_lookup; by_evaluation.
  - exists {| handlers := [15%nat];
              event_type := "ApiRunFragmentOutputArtifactEventCreate";
              kind := RunFragmentOutputArtifactCallback 8 |}.
    split; [vm_compute; reflexivity|]. split; [by_evaluation|].
    intros h Hh. in_list Hh; apply registered_at_lookup; by_evaluation.
Qed.

Lemma two_runs_runners_known runner :
  runner ∈ [runner_of_fragment_10; runner_of_fragment_11; runner_of_fragment_13] ->
  runner_known two_runs_runner runner.
Proof.
  intros Hr. in_list Hr.
  - exists [runner_of_fragment_10; runner_of_fragment_13].
    split; [vm_compute; reflexivity|by left].
  - exists [runner_of_fragment_11]. split; [vm_compute; reflexivity|by left].
  - exists [runner_of_fragment_10; runner_of_fragment_13].
    split; [vm_compute; reflexivity|right; by left].
Qed.

Lemma two_runs_apart :
  apart two_runs_runner finished_run second_run /\
  apart two_runs_runner second_run finished_run.
Proof.
  split; (split; [|split]).
  - intros c Hc. vm_compute in Hc. in_list Hc; by_evaluation.
  - intros c cb h runner Hc Hcb Hh Hr. vm_compute in Hc. vm_compute in Hr.
    in_list Hc; vm_compute in Hcb; injection Hcb as <-;
      in_list Hh; in_list Hr; by_evaluation.
  - intros runner Hr. vm_compute in Hr. in_list Hr; by_evaluation.
  - intros c Hc. vm_compute in Hc. in_list Hc; by_evaluation.
  - intros c cb h runner Hc Hcb Hh Hr. vm_compute in Hc. vm_compute in Hr.
    in_list Hc; vm_compute in Hcb; injection Hcb as <-;
      in_list Hh; in_list Hr; by_evaluation.
  - intros runner Hr. vm_compute in Hr. in_list Hr; by_evaluation.
Qed.

(** The example runner with its two runs is ready for the sweep. *)
Lemma two_runs_runner_ready :
  registry_ready two_runs_runner (dict_keys (_run_map two_runs_runner)).
Proof.
  intros k Hk. vm_compute in Hk. in_list Hk.
  - exists 10%nat, finished_run.
    split; [vm_compute; reflexivity|]. split; [vm_compute; reflexivity|].
    split.
    + split; [by_evaluation|]. split; [|split; [by_evaluation|]].
      * intros c Hc. vm_compute in Hc. apply two_runs_callbacks_ready.
        in_list Hc; by_evaluation.
      * intros runner Hr. vm_compute in Hr. apply two_runs_runners_known.
        in_list Hr; by_evaluation.
    + intros k' r' run' Hk' Hne Hget Hrun. vm_compute in Hk'.
      in_list Hk'; [exact (False_ind _ (Hne eq_refl))|].
      vm_compute in Hget. injection Hget as <-. vm_compute in Hrun.
      injection Hrun as <-. apply two_runs_apart.
  - exists 19%nat, second_run.
    split; [vm_compute; reflexivity|]. split; [vm_compute; reflexivity|].
    split.
    + split; [by_evaluation|]. split; [|split; [by_evaluation|]].
      * intros c Hc. vm_compute in Hc. apply two_runs_callbacks_ready.
        in_list Hc; by_evaluation.
      * intros runner Hr. vm_compute in Hr. apply two_runs_runners_known.
        in_list Hr; by_evaluation.
    + intros k' r' run' Hk' Hne Hget Hrun. vm_compute in Hk'.
      in_list Hk'; [|exact (False_ind _ (Hne eq_refl))].
      vm_compute in Hget. injection Hget as <-. vm_compute in Hrun.
      injection Hrun as <-. apply two_runs_apart.
Qed.






(** * Further properties of the code *)

(** ** The state tracker *)

(** X1: a [RunFragmentStateCallback] called with a state event of another
    run returns false and changes nothing; called with one of its run it
    writes the carried state under the carried fragment id into the run's
    [fragment_run_state], whether the run has this fragment or not, leaves
    every other fragment state and the rest of the store as they were, and
    returns true; since its [passthrough()] is true, the router then adds the
    event to the bundle it forwards. *)
Theorem state_callback_records ext s c self r run ev_run_id run_fragment_id run_state :
  callbacks s !! c = Some self ->
  kind self = RunFragmentStateCallback r ->
  runs s !! r = Some run ->
  let event := ERunFragmentStateCreate ev_run_id run_fragment_id run_state in
  let run' := with_state_of run_fragment_id run_state run in
  let s' := with_runs (insert r run') s in
  (ev_run_id ≠ run_id run -> callback ext c event s = (s, inr false)) /\
  (ev_run_id = run_id run ->
   callback ext c event s = (s', inr true) /\
   dict_get run_fragment_id (fragment_run_state run') = Some run_state /\
   (forall f, f ≠ run_fragment_id ->
      dict_get f (fragment_run_state run') = dict_get f (fragment_run_state run)) /\
   (forall tbl key t after acc,
      tables s !! tbl = Some t -> t !! key = Some (c :: after) ->
      apply_to_event ext tbl key acc event s = (s', inr (add_event event acc)))).
Proof.
  intros Hself Hkind Hrun event run' s'.
  assert (Hcall : ev_run_id = run_id run -> callback ext c event s = (s', inr true)).
  { intros Heq. unfold callback, mbind, M_bind, load_callback, load_run.
    rewrite Hself, Hkind. simpl. rewrite Hrun.
    rewrite decide_False; [done|]. by intros []. }
  split.
  - intros Hne. unfold callback, mbind, M_bind, load_callback, load_run.
    rewrite Hself, Hkind. simpl. rewrite Hrun. by rewrite decide_True.
  - intros Heq. split; [by apply Hcall|]. split; [apply dict_get_set_eq|].
    split; [intros f Hf; by apply dict_get_set_ne|].
    intros tbl key t after acc Ht Hkey.
    apply apply_to_event_spec. exists true. split; [|done].
    assert (Hpass : passthrough self = true) by (unfold passthrough; by rewrite Hkind).
    rewrite <- Hpass.
    eapply (routed_matched ext tbl key event s s s' t [] c after self);
      [done|done|constructor|by apply Hcall|done].
Qed.

Lemma state_callback_records_witness :
  callback example_world 12%nat (ERunFragmentStateCreate 7 10 RS_RUNNING) started_runner
  = (with_runs (insert 10%nat (with_state_of 10 RS_RUNNING started_run)) started_runner,
     inr true).
Proof.
  destruct (state_callback_records example_world started_runner 12%nat
              {| handlers := [1%nat; 6%nat];
                 event_type := "ApiRunFragmentStateEventCreate";
                 kind := RunFragmentStateCallback 10%nat |}
              10%nat started_run 7 10 RS_RUNNING) as [_ Hmatch].
  - vm_compute. reflexivity.
  - reflexivity.
  - vm_compute. reflexivity.
  - exact (proj1 (Hmatch eq_refl)).
Defined.

(** X2: the two callbacks for create events check the class of the event
    first: handed an event of another class they raise [AssertionError] and
    leave the store as it was. *)
Theorem create_callbacks_assert_class ext s c self event :
  callbacks s !! c = Some self ->
  (exists r, kind self = RunFragmentStateCallback r /\
             forall a b st, event ≠ ERunFragmentStateCreate a b st) \/
  (exists run_id, kind self = RunFragmentOutputArtifactCallback run_id /\
                  forall a b o n, event ≠ ERunFragmentOutputArtifactCreate a b o n) ->
  callback ext c event s = (s, inl AssertionError).
Proof.
  intros Hself [(r & Hkind & Hev)|(run_id & Hkind & Hev)];
    unfold callback, mbind, M_bind, load_callback; rewrite Hself, Hkind; simpl.
  - destruct event as [| | |a b st| |]; try done. by destruct (Hev a b st).
  - destruct event as [| | | |a b o n|]; try done. by destruct (Hev a b o n).
Qed.

Lemma create_callbacks_assert_class_witness :
  callback example_world 12%nat example_artifact_event started_runner
  = (started_runner, inl AssertionError).
Proof.
  apply (create_callbacks_assert_class example_world started_runner 12%nat
           {| handlers := [1%nat; 6%nat];
              event_type := "ApiRunFragmentStateEventCreate";
              kind := RunFragmentStateCallback 10%nat |}).
  - vm_compute. reflexivity.
  - left. exists 10%nat. split; [reflexivity|]. intros a b st. discriminate.
Defined.

(** X3: a [RunFragmentOutputArtifactCallback] uploads nothing unless the
    event is of its run and its payload decodes: for another run it returns
    false, for a payload that [b64decode] rejects it raises, and in both
    cases the store, with the trace of calls, is as it was. *)
Theorem artifact_callback_no_upload ext s c self run_id ev_run_id run_fragment_id
  output_artifact output_artifact_name :
  callbacks s !! c = Some self ->
  kind self = RunFragmentOutputArtifactCallback run_id ->
  let event :=
    ERunFragmentOutputArtifactCreate ev_run_id run_fragment_id
      output_artifact output_artifact_name in
  (ev_run_id ≠ run_id -> callback ext c event s = (s, inr false)) /\
  (ev_run_id = run_id -> b64decode ext output_artifact = None ->
   callback ext c event s = (s, inl ExternalError)).
Proof.
  intros Hself Hkind event. split.
  - intros Hne. unfold callback, mbind, M_bind, load_callback.
    rewrite Hself, Hkind. simpl. by rewrite decide_True.
  - intros Heq Hdec. unfold callback, mbind, M_bind, load_callback.
    rewrite Hself, Hkind. simpl. rewrite decide_False; [|by intros []].
    by rewrite Hdec.
Qed.

Lemma artifact_callback_no_upload_witness :
  callback example_world 13%nat
    (ERunFragmentOutputArtifactCreate 7 10 "not base64" "out.bin") started_runner
  = (started_runner, inl ExternalError).
Proof.
  destruct (artifact_callback_no_upload example_world started_runner 13%nat
              {| handlers := [1%nat; 6%nat];
                 event_type := "ApiRunFragmentOutputArtifactEventCreate";
                 kind := RunFragmentOutputArtifactCallback 7 |}
              7 7 10 "not base64" "out.bin") as [_ Hfail].
  - vm_compute. reflexivity.
  - reflexivity.
  - apply Hfail; [reflexivity|vm_compute; reflexivity].
Defined.

(** ** A new run *)

Lemma dict_get_foldl_set {V} (v : V) (ks : list Z) : forall (d : list (Z * V)) k,
  dict_get k (foldl (fun d f => dict_set f v d) d ks)
  = if decide (k ∈ ks) then Some v else dict_get k d.
Proof.
  induction ks as [|k0 ks IH]; intros d k; simpl.
  - done.
  - rewrite IH. destruct (decide (k ∈ ks)) as [Hin|Hnot].
    + rewrite decide_True; [done|]. by right.
    + destruct (decide (k = k0)) as [->|Hne].
      * rewrite decide_True; [|by left]. apply dict_get_set_eq.
      * rewrite decide_False; [by apply dict_get_set_ne|].
        rewrite elem_of_cons. tauto.
Qed.

Lemma dict_get_in_values {V} (k : Z) (v : V) (d : list (Z * V)) :
  dict_get k d = Some v -> v ∈ dict_values d.
Proof.
  unfold dict_values. induction d as [|[k0 v0] d IH]; [done|]. simpl.
  destruct (decide (k = k0)).
  - intros [= ->]. by left.
  - intros H. right. by apply IH.
Qed.

(** X4: [MainRun.__init__] gives every fragment of the map the state
    [SPAWNED] and no state to any other fragment id; hence a new run counts
    as finished for the sweep if and only if it has no fragments at all. *)
Theorem new_run_states run_id fragment_runner_map :
  let run := MainRun_init run_id fragment_runner_map in
  (forall k,
     dict_get k (fragment_run_state run)
     = if decide (k ∈ dict_keys fragment_runner_map) then Some RS_SPAWNED else None) /\
  (all_fragments_finished run = true <-> fragment_runner_map = []).
Proof.
  intros run.
  assert (Hget : forall k,
             dict_get k (fragment_run_state run)
             = if decide (k ∈ dict_keys fragment_runner_map)
               then Some RS_SPAWNED else None).
  { intros k. unfold run, MainRun_init. cbn [fragment_run_state].
    by rewrite dict_get_foldl_set. }
  split; [exact Hget|].
  - split.
    + intros Hfin. destruct fragment_runner_map as [|[k v] m]; [done|]. exfalso.
      assert (Hk : dict_get k (fragment_run_state run) = Some RS_SPAWNED).
      { rewrite Hget. rewrite decide_True; [done|]. by left. }
      apply dict_get_in_values in Hk.
      apply all_fragments_finished_true in Hfin.
      rewrite Forall_forall in Hfin. apply (Hfin _ Hk).
      unfold unfinished. simpl. lia.
    + intros ->. reflexivity.
Qed.

(** ** Stopped runners *)

Lemma add_events_concat items : forall acc,
  foldl (fun acc (item : string * list Event) => add_events item.2 acc) acc items
  = add_events (events_of items) acc.
Proof.
  unfold events_of. induction items as [|[key events] items IH]; intros acc; [done|].
  simpl. rewrite IH. by rewrite add_events_app.
Qed.

(** A table without entries lets every bundle through and calls nothing. *)
Lemma apply_to_types_empty_table ext tbl s items : forall acc,
  tables s !! tbl = Some ∅ ->
  apply_to_types ext tbl acc items s = (s, inr (add_events (events_of items) acc)).
Proof.
  induction items as [|[key events] items IH]; intros acc Ht; [done|].
  simpl. unfold mbind at 1, M_bind at 1.
  unfold mbind at 1, M_bind at 1, load_table. rewrite Ht.
  rewrite decide_False; [|rewrite lookup_empty; by intros [? ?]].
  unfold mret at 1, M_ret at 1. rewrite IH by done.
  unfold events_of. simpl. by rewrite add_events_app.
Qed.

Lemma stop_clears runner s h :
  h ∈ runner_tables runner -> tables (stop runner s).1 !! h = Some ∅.
Proof.
  intros Hh. rewrite stop_unfold. cbv zeta.
  assert (Hc : (<[query_event_handlers runner := ∅]>
                  (<[delete_event_handlers runner := ∅]>
                     (<[update_event_handlers runner := ∅]>
                        (<[create_event_handlers runner := (∅ : HandlerTable)]>
                           (tables s))))) !! h = Some ∅);
    [|by destruct (read_tasks s !! fr_ident runner) as [[| |e]|]].
  unfold runner_tables in Hh.
  destruct (decide (query_event_handlers runner = h)) as [->|Hq];
    [by rewrite lookup_insert_eq|rewrite lookup_insert_ne by done].
  destruct (decide (delete_event_handlers runner = h)) as [->|Hd];
    [by rewrite lookup_insert_eq|rewrite lookup_insert_ne by done].
  destruct (decide (update_event_handlers runner = h)) as [->|Hu];
    [by rewrite lookup_insert_eq|rewrite lookup_insert_ne by done].
  destruct (decide (create_event_handlers runner = h)) as [->|Hc];
    [by rewrite lookup_insert_eq|].
  exfalso. rewrite !elem_of_cons, elem_of_nil in Hh. intuition congruence.
Qed.

(** X5: once a fragment runner has been stopped, events that are still
    routed through one of its four tables meet no callback: whatever the
    bundle, [_apply_callbacks] calls nothing, changes nothing and returns all
    the events of the bundle for forwarding. *)
Theorem stopped_runner_forwards_all ext runner s h event_bundle :
  h ∈ runner_tables runner ->
  _apply_callbacks ext event_bundle h (stop runner s).1
  = ((stop runner s).1, inr (add_events (events_of event_bundle) [])).
Proof.
  intros Hh. unfold _apply_callbacks.
  apply apply_to_types_empty_table. by apply stop_clears.
Qed.

Lemma stopped_runner_forwards_all_witness :
  _apply_callbacks example_world example_create_bundle 1%nat
    (stop runner_of_fragment_10 started_runner).1
  = ((stop runner_of_fragment_10 started_runner).1,
     inr (add_events (events_of example_create_bundle) [])).
Proof.
  apply (stopped_runner_forwards_all example_world runner_of_fragment_10).
  by left.
Defined.

(** X6: [remove_callback] on a callback whose first handler table belongs
    to a runner that has been stopped raises [KeyError], since [stop] has
    cleared the table, and changes nothing; this is why the sweep removes
    the callbacks of a run before it stops the runners. *)
Theorem remove_callback_after_stop_raises runner s c cb h hs :
  callbacks s !! c = Some cb ->
  handlers cb = h :: hs ->
  h ∈ runner_tables runner ->
  remove_callback c (stop runner s).1 = ((stop runner s).1, inl KeyError).
Proof.
  intros Hcb Hh Hin.
  unfold remove_callback, mbind, M_bind, load_callback.
  replace (callbacks (stop runner s).1) with (callbacks s)
    by (symmetry; apply (stop_frame runner s)).
  rewrite Hcb, Hh. cbn [for_each]. unfold mbind, M_bind.
  unfold unregister_from, mbind, M_bind, load_table.
  rewrite (stop_clears runner s h Hin). by rewrite lookup_empty.
Qed.

Lemma remove_callback_after_stop_raises_witness :
  remove_callback 12%nat (stop runner_of_fragment_10 started_runner).1
  = ((stop runner_of_fragment_10 started_runner).1, inl KeyError).
Proof.
  apply (remove_callback_after_stop_raises runner_of_fragment_10 started_runner 12%nat
           {| handlers := [1%nat; 6%nat];
              event_type := "ApiRunFragmentStateEventCreate";
              kind := RunFragmentStateCallback 10%nat |} 1%nat [6%nat]).
  - vm_compute. reflexivity.
  - reflexivity.
  - by left.
Defined.

(** ** Runner events *)

Lemma handle_runner_event_spec updates event s :
  handle_runner_event updates (ERunnerRead event) s
  = ((if rn_heartbeat event
      then with_trace (fun t => t ++ [rc_send_heartbeat]) s else s),
     inr (add_event (EUpdate (runner_event_update s event)) updates)).
Proof.
  unfold handle_runner_event, mbind, M_bind, get_self, runner_event_update.
  by destruct (rn_heartbeat event).
Qed.

(** X7: [_handle_runner_events] on a list of runner events calls the
    backend's heartbeat once for each heartbeat event and nothing else, and
    adds to the batch one update for each event, in the order of the events
    and with the id of its event: marked [COMPLETED] for a heartbeat, without
    a status for any other runner event type. *)
Theorem runner_events_answered events : forall updates s,
  _handle_runner_events (ERunnerRead <$> events) updates s
  = (with_trace
       (fun t => t ++ replicate (length (List.filter rn_heartbeat events))
                                rc_send_heartbeat) s,
     inr (add_events ((fun e => EUpdate (runner_event_update s e)) <$> events) updates)).
Proof.
  induction events as [|event events IH]; intros updates s.
  - simpl. unfold mret, M_ret. f_equal. destruct s. unfold with_trace. simpl.
    by rewrite app_nil_r.
  - rewrite fmap_cons. cbn [_handle_runner_events]. unfold mbind, M_bind.
    rewrite handle_runner_event_spec, IH.
    destruct (rn_heartbeat event) eqn:Hhb.
    + cbn [List.filter]. rewrite Hhb. f_equal.
      unfold with_trace. simpl. by rewrite <- app_assoc.
    + cbn [List.filter]. by rewrite Hhb.
Qed.

(** ** The router *)

(** X8: a turn of the router on a bundle of type [ApiEventRead] raises
    [RuntimeError] before anything is done, whatever the bundle; on an empty
    bundle of any other type it makes no call at all and changes nothing. *)
Theorem router_turn_edges ext fragment_runner event_bundle s :
  _handle_fragment_runner_events_turn ext fragment_runner ApiEventRead event_bundle s
  = (s, inl RuntimeError) /\
  (forall event_type,
     event_type ≠ ApiEventRead ->
     _handle_fragment_runner_events_turn ext fragment_runner event_type [] s
     = (s, inr tt)).
Proof.
  split; [done|]. intros event_type Hne. by destruct event_type.
Qed.

(** X9: while a [BundleUpdatesEventCallback] is the first callback of its
    key in a runner's update table, the router never forwards an update with
    the callback's event id: the update is counted and dropped, and only the
    update that completes the count makes the callback send its own
    aggregated update; an update with another id, when the callback is alone
    under the key, is forwarded unchanged. *)
Theorem aggregator_swallows_updates ext s c hs et E N r ok u' tbl key t after acc u :
  callbacks s !! c = Some (aggregator hs et E N r ok u') ->
  NoDup hs ->
  (forall h, h ∈ hs -> registered_at s c et h) ->
  tables s !! tbl = Some t ->
  t !! key = Some (c :: after) ->
  r < N ->
  (upd_id u = E ->
   exists s',
     apply_to_event ext tbl key acc (EUpdate u) s = (s', inr acc) /\
     ((r + 1 < N /\ trace s' = trace s) \/
      (r + 1 = N /\
       exists sent,
         trace s' = trace s ++ [rc_update_events [(upd_discriminator sent, [EUpdate sent])]]
         /\ upd_id sent = upd_id u'))) /\
  (upd_id u ≠ E -> after = [] ->
   apply_to_event ext tbl key acc (EUpdate u) s = (s, inr (add_event (EUpdate u) acc))).
Proof.
  intros Hcb Hnd Hreg Ht Hkey Hr. split.
  - intros Hid. destruct (decide (r + 1 = N)) as [Hlast|Hmore].
    + destruct (callback_last ext c hs et E N s r ok u' u Hcb Hnd Hreg Hid Hlast)
        as (s' & Hcall & Hcb' & Htr & _).
      exists s'. split.
      * apply apply_to_event_spec. exists false. split; [|done].
        eapply (routed_matched ext tbl key (EUpdate u) s s s' t [] c after
                  (aggregator hs et E N N _ _)); [done|done|constructor|done|done].
      * right. split; [done|]. eexists. split; [exact Htr|done].
    + assert (Hlt : r + 1 < N) by lia.
      pose proof (callback_counts ext c hs et E N s r ok u' u Hcb Hid Hlt) as Hcall.
      eexists. split.
      * apply apply_to_event_spec. exists false. split; [|done].
        eapply (routed_matched ext tbl key (EUpdate u) s s _ t [] c after
                  (aggregator hs et E N (r + 1) _ u'));
          [done|done|constructor|exact Hcall|apply lookup_insert_eq].
      * left. done.
  - intros Hid ->.
    apply apply_to_event_spec. exists true. split; [|done].
    eapply (routed_unmatched ext tbl key (EUpdate u) s s t [c]); [done|done|].
    econstructor; [|constructor]. by eapply callback_other_id.
Qed.

Lemma aggregator_swallows_updates_witness :
  exists s',
    apply_to_event example_world 2%nat "ApiRunEventUpdate" []
      (EUpdate (set_event_status COMPLETED example_update)) started_runner
    = (s', inr []) /\
    trace s' = trace started_runner.
Proof.
  destruct (aggregator_swallows_updates example_world started_runner 11%nat
              [2%nat; 7%nat] "ApiRunEventUpdate" 5 2 0 true
              (run_event_update example_runner
                 (example_start_event
                    [example_fragment 10 1 None; example_fragment 11 2 (Some "docker")]))
              2%nat "ApiRunEventUpdate" {["ApiRunEventUpdate" := [11%nat]]} [] []
              (set_event_status COMPLETED example_update))
    as [Hsame _].
  - vm_compute. reflexivity.
  - by_evaluation.
  - intros h Hh. in_list Hh; apply registered_at_lookup; by_evaluation.
  - vm_compute. reflexivity.
  - apply lookup_singleton_eq.
  - lia.
  - destruct (Hsame eq_refl) as (s' & Hrun & [[_ Htr]|[Hlast _]]).
    + exists s'. split; [exact Hrun|exact Htr].
    + exfalso. lia.
Defined.

(** ** The loaded configuration *)

Lemma dict_keys_set_new {K V} `{EqDecision K} (k : K) (v : V) (d : list (K * V)) :
  dict_get k d = None -> dict_keys (dict_set k v d) = dict_keys d ++ [k].
Proof.
  unfold dict_keys. induction d as [|[k0 v0] d IH]; [done|].
  cbn [dict_get dict_set].
  destruct (decide (k = k0)); [discriminate|]. intros H.
  rewrite !fmap_cons, IH by done. reflexivity.
Qed.

Lemma dict_get_foldl_default {K V} `{EqDecision K} (v : V) (ks : list K)
  : forall (d : list (K * V)) k,
  dict_get k (foldl (fun d f => dict_set f v d) d ks)
  = if decide (k ∈ ks) then Some v else dict_get k d.
Proof.
  induction ks as [|k0 ks IH]; intros d k; simpl; [done|].
  rewrite IH. destruct (decide (k ∈ ks)) as [Hin|Hnot].
  - rewrite decide_True; [done|]. by right.
  - destruct (decide (k = k0)) as [->|Hne].
    + rewrite decide_True; [|by left]. apply dict_get_set_eq.
    + rewrite decide_False; [by apply dict_get_set_ne|].
      rewrite elem_of_cons. tauto.
Qed.

Lemma dict_mem_false_any {K V} `{EqDecision K} (k : K) (d : list (K * V)) :
  dict_mem k d = false <-> dict_get k d = None.
Proof.
  unfold dict_mem. rewrite bool_decide_eq_false.
  destruct (dict_get k d) as [v|]; split; intros H; try done.
  exfalso. apply H. by exists v.
Qed.

Section LoadedConfiguration.
Context (ext : External).

(** What one entry of the file adds, when it is accepted. *)
Lemma load_executor_configs loaded executor s s' loaded' :
  load_executor ext loaded executor s = (s', inr loaded') ->
  exists n config,
    dict_get n (_fragment_executor_configs s) = None /\
    cfg_name config = n /\
    _fragment_executor_configs s' = dict_set n config (_fragment_executor_configs s) /\
    _available_fragment_executors s' = _available_fragment_executors s ++ [n] /\
    fragment_runners s' = fragment_runners s /\ same_registry s s' /\
    tables s' = tables s /\ trace s' = trace s.
Proof.
  unfold load_executor.
  destruct executor as [| |l|[|[n [| | |data]] [|]]]; try discriminate.
  destruct (dict_get "plugin" data) as [plugin|]; [|discriminate].
  intros H. apply bind_returns in H as (s1 & settings & Hset & H).
  assert (s1 = s) as ->.
  { destruct (dict_get "settings" data) as [[| | |]|]; try discriminate;
      by apply ret_returns in Hset as [-> _]. }
  destruct plugin as [|plugin| |]; try discriminate.
  apply bind_returns in H as (s2 & loaded2 & Hload & H).
  assert (s2 = s) as ->.
  { case_decide; [by apply ret_returns in Hload as [-> _]|].
    destruct (load_plugin ext plugin); [|discriminate].
    by apply ret_returns in Hload as [-> _]. }
  unfold mbind, M_bind, get_self in H.
  destruct (dict_mem n (_fragment_executor_configs s)) eqn:Hmem; [discriminate|].
  apply dict_mem_false_any in Hmem.
  unfold update_self, mret, M_ret in H. injection H as <- _.
  eexists n, _. by repeat split.
Qed.

Lemma load_executors_configs executors : forall loaded s s',
  load_executors ext loaded executors s = (s', inr tt) ->
  dict_keys (_fragment_executor_configs s) = _available_fragment_executors s ->
  NoDup (_available_fragment_executors s) ->
  dict_keys (_fragment_executor_configs s') = _available_fragment_executors s' /\
  NoDup (_available_fragment_executors s') /\
  fragment_runners s' = fragment_runners s /\ same_registry s s' /\
  tables s' = tables s /\ trace s' = trace s.
Proof.
  induction executors as [|executor executors IH]; intros loaded s s' H Hkeys Hnd.
  - by apply ret_returns in H as [-> _].
  - simpl in H. apply bind_returns in H as (s1 & loaded1 & Hone & Hrest).
    apply load_executor_configs in Hone
      as (n & config & Hnew & _ & Hcfg & Hav & Hfr & Hreg & Htb & Htr).
    destruct (IH _ _ _ Hrest) as (Hkeys' & Hnd' & Hfr' & Hreg' & Htb' & Htr').
    + rewrite Hcfg, Hav, dict_keys_set_new by done. by rewrite Hkeys.
    + rewrite Hav. apply NoDup_app. split; [done|]. split; [|apply NoDup_singleton].
      intros x Hx Hxn. apply list_elem_of_singleton in Hxn as ->.
      apply dict_get_None in Hnew. apply Hnew. by rewrite Hkeys.
    + split; [done|]. split; [done|]. split; [congruence|].
      split; [by eapply same_registry_trans|]. split; congruence.
Qed.

End LoadedConfiguration.

(** X11: when [_load_configuration] returns in a new main runner, the
    executor names are pairwise distinct (a file that names an executor twice
    is never accepted), the configurations are keyed by exactly these names
    in the order of the file, each name has an empty set of fragment runners,
    and the registry, the stores and the trace are still empty. *)
Theorem loaded_configuration ext ident d executors s :
  _load_configuration ext (YDict d) (MainRunner_init ident) = (s, inr tt) ->
  dict_get "fragment_executors" d = Some (YList executors) ->
  NoDup (omap executor_name executors) /\
  dict_keys (_fragment_executor_configs s) = omap executor_name executors /\
  (forall n, n ∈ omap executor_name executors ->
             dict_get n (fragment_runners s) = Some []) /\
  _run_map s = [] /\ tables s = ∅ /\ callbacks s = ∅ /\ trace s = [].
Proof.
  intros Hload Hd.
  destruct (_load_configuration_available ext ident d executors s Hload Hd) as [Hav _].
  unfold _load_configuration in Hload. rewrite Hd in Hload.
  apply bind_returns in Hload as (s1 & [] & Hex & Hrest).
  apply load_executors_configs in Hex
    as (Hkeys & Hnd & Hfr & (Hmap & _ & Hcbs) & Htb & Htr); [|done|constructor].
  apply bind_returns in Hrest as (s2 & s3 & Hget & Hloop).
  injection Hget as <- <-.
  assert (Hfinal : forall names s0 s0',
             for_each names
               (fun fragment_executor =>
                  update_self (with_fragment_runners (dict_set fragment_executor [])))
               s0 = (s0', inr tt) ->
             s0' = with_fragment_runners
                     (fun _ => foldl (fun d f => dict_set f [] d) (fragment_runners s0) names)
                     s0).
  { induction names as [|n names IH]; intros s0 s0' H.
    - apply ret_returns in H as [-> _]. by destruct s0.
    - simpl in H. apply bind_returns in H as (s4 & [] & Hone & H).
      injection Hone as <-. by rewrite (IH _ _ H). }
  apply Hfinal in Hloop. subst s. simpl in *.
  rewrite <- Hav. split; [done|]. split; [done|]. split; [|done].
  intros n Hn. rewrite dict_get_foldl_default. by rewrite decide_True.
Qed.

Lemma loaded_configuration_witness :
  NoDup (omap executor_name example_executors) /\
  dict_keys (_fragment_executor_configs example_runner)
  = omap executor_name example_executors.
Proof.
  destruct (loaded_configuration example_world 1
              [("fragment_executors", YList example_executors)]
              example_executors example_runner) as (Hnd & Hkeys & _).
  - vm_compute. reflexivity.
  - reflexivity.
  - split; [exact Hnd|exact Hkeys].
Defined.

(** ** Starting a fragment runner *)

(** X12: the three outcomes of [_start_fragment_runner].  An executor name
    without a configuration raises [AssertionError] before the plug-in is
    touched.  When the plug-in fails to start, the exception is raised after
    the start call only: no runner is made or registered.  When it starts,
    the new runner carries the name, has four distinct handler tables, all
    empty, is added to the set of its name, and the registry of runs and
    all other tables are untouched. *)
Theorem start_fragment_runner_outcomes ext executor parameters s :
  (dict_get executor (_fragment_executor_configs s) = None ->
   _start_fragment_runner ext executor parameters s = (s, inl AssertionError)) /\
  (forall config,
     dict_get executor (_fragment_executor_configs s) = Some config ->
     plugin_starts ext (cfg_plugin config) (cfg_settings config) parameters = false ->
     _start_fragment_runner ext executor parameters s
     = (with_trace
          (fun t => t ++ [plugin_start (cfg_plugin config) (cfg_settings config)
                            parameters]) s,
        inl ExternalError)) /\
  (forall config rs,
     dict_get executor (_fragment_executor_configs s) = Some config ->
     plugin_starts ext (cfg_plugin config) (cfg_settings config) parameters = true ->
     dict_get executor (fragment_runners s) = Some rs ->
     exists s' runner,
       _start_fragment_runner ext executor parameters s = (s', inr runner) /\
       name runner = executor /\ fr_ident runner = next_ref s /\
       NoDup (runner_tables runner) /\
       (forall h, h ∈ runner_tables runner -> tables s' !! h = Some ∅) /\
       (forall h, h ∉ runner_tables runner -> tables s' !! h = tables s !! h) /\
       dict_get executor (fragment_runners s') = Some (set_add runner rs) /\
       same_registry s s' /\
       trace s' = trace s ++ [plugin_start (cfg_plugin config) (cfg_settings config)
                                parameters]).
Proof.
  split; [|split].
  - intros Hcfg. unfold _start_fragment_runner, mbind, M_bind, get_self.
    by rewrite Hcfg.
  - intros config Hcfg Hstart.
    unfold _start_fragment_runner, mbind, M_bind, get_self.
    rewrite Hcfg. simpl. by rewrite Hstart.
  - intros config rs Hcfg Hstart Hrs.
    unfold _start_fragment_runner, mbind, M_bind, get_self.
    rewrite Hcfg. simpl. rewrite Hstart. simpl. rewrite Hrs. simpl.
    eexists _, _. split; [reflexivity|]. simpl.
    split; [done|]. split; [done|]. split.
    { apply NoDup_ListNoDup. repeat constructor; simpl; lia. }
    split.
    { intros h Hh. unfold runner_tables in Hh. simpl in Hh.
      rewrite !elem_of_cons, elem_of_nil in Hh.
      destruct Hh as [->|[->|[->|[->|[]]]]];
        repeat (rewrite lookup_insert_ne by lia); by rewrite lookup_insert_eq. }
    split.
    { intros h Hh. unfold runner_tables in Hh. simpl in Hh.
      rewrite !not_elem_of_cons in Hh. destruct Hh as (? & ? & ? & ? & _).
      by rewrite !lookup_insert_ne. }
    split; [apply dict_get_set_eq|]. done.
Qed.

Lemma start_fragment_runner_outcomes_witness :
  exists s' runner,
    _start_fragment_runner example_world "docker" "p2" example_runner
    = (s', inr runner) /\
    name runner = "docker" /\ tables s' !! create_event_handlers runner = Some ∅.
Proof.
  destruct (start_fragment_runner_outcomes example_world "docker" "p2" example_runner)
    as (_ & _ & Hok).
  destruct (Hok {| cfg_name := "docker"; cfg_plugin := "plugins.docker";
                   cfg_settings := [] |} [])
    as (s' & runner & Hrun & Hname & _ & _ & Hempty & _).
  - vm_compute. reflexivity.
  - reflexivity.
  - vm_compute. reflexivity.
  - exists s', runner. split; [exact Hrun|]. split; [exact Hname|].
    apply Hempty. by left.
Defined.

(** ** An executor tag without a configuration *)

Lemma forget_runner_unknown runner other s s' :
  ~ runner_known s runner ->
  forget_runner other s = (s', inr tt) ->
  ~ runner_known s' runner.
Proof.
  intros Hnot. unfold forget_runner, mbind, M_bind, get_self.
  destruct (dict_get (name other) (fragment_runners s)) as [rs|] eqn:Hrs; [|discriminate].
  unfold set_remove. case_decide; [|discriminate].
  intros [= <-] (rs' & Hrs' & Hin). simpl in Hrs'. apply Hnot.
  destruct (decide (name runner = name other)) as [Heq|Hne].
  - rewrite Heq, dict_get_set_eq in Hrs'. injection Hrs' as <-.
    apply list_elem_of_filter in Hin as [_ Hin]. exists rs. by rewrite Heq.
  - rewrite dict_get_set_ne in Hrs' by done. by exists rs'.
Qed.

Lemma forget_runner_forgets runner s s' :
  forget_runner runner s = (s', inr tt) -> ~ runner_known s' runner.
Proof.
  unfold forget_runner, mbind, M_bind, get_self.
  destruct (dict_get (name runner) (fragment_runners s)) as [rs|] eqn:Hrs; [|discriminate].
  unfold set_remove. case_decide; [|discriminate].
  intros [= <-] (rs' & Hrs' & Hin). simpl in Hrs'.
  rewrite dict_get_set_eq in Hrs'. injection Hrs' as <-.
  apply list_elem_of_filter in Hin as [Hne _]. by apply Hne.
Qed.

Lemma for_each_forget_forgets runners : forall s s' runner,
  for_each runners forget_runner s = (s', inr tt) ->
  runner ∈ runners \/ ~ runner_known s runner ->
  ~ runner_known s' runner.
Proof.
  induction runners as [|other runners IH]; intros s s' runner Hrun Hor.
  - apply ret_returns in Hrun as [-> _]. destruct Hor as [Hin|Hnot]; [|done].
    by apply elem_of_nil in Hin.
  - cbn [for_each] in Hrun. apply bind_returns in Hrun as (s1 & [] & Hone & Hrest).
    apply (IH s1 s' runner Hrest).
    destruct (decide (runner = other)) as [->|Hne].
    + right. by eapply forget_runner_forgets.
    + destruct Hor as [Hin|Hnot].
      * left. apply elem_of_cons in Hin as [?|?]; done.
      * right. by eapply forget_runner_unknown.
Qed.

Lemma stop_keeps_empty runner s h :
  tables s !! h = Some ∅ -> tables (stop runner s).1 !! h = Some ∅.
Proof.
  intros Hh. destruct (decide (h ∈ runner_tables runner)) as [Hin|Hnot].
  - by apply stop_clears.
  - destruct (stop_frame runner s) as (_ & _ & Hframe & _). by rewrite Hframe.
Qed.

Lemma gather_step task tasks s :
  (gather (task :: tasks) s).1 = (gather tasks (task s).1).1.
Proof. cbn [gather]. by destruct (task s) as [s1 [e|[]]]. Qed.

Lemma gather_stop_keeps_empty runners : forall s h,
  tables s !! h = Some ∅ -> tables (gather (stop <$> runners) s).1 !! h = Some ∅.
Proof.
  induction runners as [|runner runners IH]; intros s h Hh; [done|].
  rewrite fmap_cons, gather_step. apply IH. by apply stop_keeps_empty.
Qed.

(** However the gathered stops end, the tables of all the runners are
    empty afterwards. *)
Lemma gather_stop_clears runners : forall s runner h,
  runner ∈ runners -> h ∈ runner_tables runner ->
  tables (gather (stop <$> runners) s).1 !! h = Some ∅.
Proof.
  induction runners as [|first runners IH]; intros s runner h Hin Hh.
  - by apply elem_of_nil in Hin.
  - rewrite fmap_cons, gather_step. apply elem_of_cons in Hin as [->|Hin].
    + apply gather_stop_keeps_empty. by apply stop_clears.
    + by eapply IH.
Qed.

(** X13: when a fragment of a start event names an executor tag without a
    configuration, and no reader of the runners that the first loop of
    [_start_run] has started for the run so far has failed, then the loop
    raises [RuntimeError] after it has stopped these runners: each of them
    gets one stop call, in the order of the map, is taken out of
    [fragment_runners], and has its four handler tables emptied; the
    registry of runs is untouched. *)
Theorem unknown_tag_stops_started ext parameters_map started rf rfs tag s :
  rf_fragment_executor_tag rf = Some tag ->
  dict_get tag (_fragment_executor_configs s) = None ->
  NoDup (dict_values started) ->
  (forall runner, runner ∈ dict_values started -> runner_known s runner) ->
  (forall runner, runner ∈ dict_values started -> reader_alive s runner) ->
  exists s',
    start_fragment_runners ext parameters_map started (rf :: rfs) s
    = (s', inl RuntimeError) /\
    trace s' = trace s ++ ((fun runner => plugin_stop (fr_ident runner))
                             <$> dict_values started) /\
    (forall runner, runner ∈ dict_values started ->
       ~ runner_known s' runner /\
       forall h, h ∈ runner_tables runner -> tables s' !! h = Some ∅) /\
    same_registry s s'.
Proof.
  intros Htag Hcfg Hnd Hknown Halive.
  destruct (for_each_forget _ s Hnd Hknown) as (s1 & Hrun1 & Hreg1 & Htb1 & Htr1 & _).
  assert (Htasks : read_tasks s1 = read_tasks s).
  { apply (keeps_for_each same_read_tasks _ _ keeps_forget_runner_tasks _ _ _ Hrun1). }
  destruct (gather_stop (dict_values started) s1)
    as (s' & Hrun2 & Hreg2 & Hf2 & Htr2 & _).
  { intros runner Hin. unfold reader_alive. rewrite Htasks. by apply Halive. }
  exists s'. split.
  { cbn [start_fragment_runners]. unfold resolve_executor_tag, _stop_fragment_runners.
    unfold mbind, M_bind, get_self. rewrite Htag.
    apply dict_mem_false_any in Hcfg. rewrite Hcfg, Hrun1, Hrun2. reflexivity. }
  split; [by rewrite Htr2, Htr1|]. split; [|by eapply same_registry_trans].
  intros runner Hin. split.
  - intros (rs & Hrs & Hrin). rewrite Hf2 in Hrs.
    eapply (for_each_forget_forgets _ s s1 runner Hrun1); [by left|]. by exists rs.
  - intros h Hh.
    pose proof (gather_stop_clears (dict_values started) s1 runner h Hin Hh) as Hc.
    by rewrite Hrun2 in Hc.
Qed.

Lemma unknown_tag_stops_started_witness :
  exists s',
    start_fragment_runners example_world [] (fragment_runner_map started_run)
      [example_fragment 12 1 (Some "podman")] started_runner
    = (s', inl RuntimeError) /\
    trace s' = trace started_runner
               ++ [plugin_stop (fr_ident runner_of_fragment_10);
                   plugin_stop (fr_ident runner_of_fragment_11)].
Proof.
  destruct (unknown_tag_stops_started example_world [] (fragment_runner_map started_run)
              (example_fragment 12 1 (Some "podman")) [] "podman" started_runner)
    as (s' & Hrun & Htrace & _).
  - reflexivity.
  - vm_compute. reflexivity.
  - by_evaluation.
  - intros runner Hr. vm_compute in Hr. in_list Hr.
    + exists [runner_of_fragment_10]. split; [vm_compute; reflexivity|by left].
    + exists [runner_of_fragment_11]. split; [vm_compute; reflexivity|by left].
  - intros runner Hr. vm_compute in Hr. in_list Hr; left; vm_compute; reflexivity.
  - exists s'. split; [exact Hrun|exact Htrace].
Defined.

(** ** What a start leaves behind *)


(** The steps that work on the tables, the runners and the trace. *)
Lemma keeps_call_registry a : keeps same_registry (call a).
Proof. by apply (keeps_update_self same_registry). Qed.

Lemma keeps_forget_runner runner : keeps same_registry (forget_runner runner).
Proof.
  unfold forget_runner. apply (keeps_bind same_registry); [apply (keeps_get_self same_registry)|].
  intros s. destruct (dict_get _ _); [|apply (keeps_raise same_registry)].
  destruct (set_remove _ _); [|apply (keeps_raise same_registry)].
  by apply (keeps_update_self same_registry).
Qed.

Lemma keeps_stop runner : keeps same_registry (stop runner).
Proof.
  intros s s' r H. pose proof (stop_frame runner s) as Hf.
  rewrite H in Hf. apply Hf.
Qed.

Lemma keeps_gather (R : MainRunner -> MainRunner -> Prop) `{!PreOrder R}
  (tasks : list (M unit)) :
  Forall (keeps R) tasks -> keeps R (gather tasks).
Proof.
  induction 1 as [|task tasks Htask _ IH]; intros s s' r H.
  - injection H as <- _. reflexivity.
  - cbn [gather] in H. destruct (task s) as [s1 [e|[]]] eqn:Hone.
    + injection H as <- _. transitivity s1; [by eapply Htask|].
      destruct (gather tasks s1) as [s2 r2] eqn:Hrest. by eapply IH.
    + transitivity s1; [by eapply Htask|by eapply IH].
Qed.

Lemma keeps_stop_fragment_runners fragment_runner_map :
  keeps same_registry (_stop_fragment_runners fragment_runner_map).
Proof.
  unfold _stop_fragment_runners. apply (keeps_bind same_registry).
  - apply (keeps_for_each same_registry). apply keeps_forget_runner.
  - intros _. apply (keeps_gather same_registry). apply Forall_fmap, Forall_forall.
    intros runner _. apply keeps_stop.
Qed.

Lemma keeps_fresh_ref : keeps same_registry fresh_ref.
Proof. intros s s' r [= <- _]. done. Qed.

Lemma keeps_new_table : keeps same_registry new_table.
Proof.
  unfold new_table. apply (keeps_bind same_registry); [apply keeps_fresh_ref|].
  intros h. apply (keeps_bind same_registry);
    [by apply (keeps_update_self same_registry)|].
  intros _. apply (keeps_ret same_registry).
Qed.

Lemma keeps_FragmentRunner_init executor :
  keeps same_registry (FragmentRunner_init executor).
Proof.
  unfold FragmentRunner_init.
  apply (keeps_bind same_registry); [apply keeps_fresh_ref|]. intros i.
  do 4 (apply (keeps_bind same_registry); [apply keeps_new_table|]; intros ?).
  apply (keeps_ret same_registry).
Qed.

Section KeepsStart.
Context (ext : External).

Lemma keeps_start_fragment_runner executor parameters :
  keeps same_registry (_start_fragment_runner ext executor parameters).
Proof.
  unfold _start_fragment_runner. apply (keeps_bind same_registry); [apply (keeps_get_self same_registry)|].
  intros s. destruct (dict_get _ _) as [config|]; [|apply (keeps_raise same_registry)].
  apply (keeps_bind same_registry); [apply keeps_call_registry|]. intros _.
  destruct (plugin_starts _ _ _ _); [|apply (keeps_raise same_registry)].
  apply (keeps_bind same_registry); [apply keeps_FragmentRunner_init|].
  intros runner.
  apply (keeps_bind same_registry); [by apply (keeps_update_self same_registry)|].
  intros _. apply (keeps_bind same_registry); [apply (keeps_get_self same_registry)|].
  intros s0. destruct (dict_get _ _); [|apply (keeps_raise same_registry)].
  apply (keeps_bind same_registry); [by apply (keeps_update_self same_registry)|].
  intros _. apply (keeps_ret same_registry).
Qed.

Lemma keeps_resolve_executor_tag fragment_runner_map rf :
  keeps same_registry (resolve_executor_tag fragment_runner_map rf).
Proof.
  unfold resolve_executor_tag. apply (keeps_bind same_registry); [apply (keeps_get_self same_registry)|].
  intros s. destruct (rf_fragment_executor_tag rf) as [tag|].
  - destruct (dict_mem _ _); [apply (keeps_ret same_registry)|].
    apply (keeps_bind same_registry); [apply keeps_stop_fragment_runners|].
    intros _. apply (keeps_raise same_registry).
  - destruct (_available_fragment_executors s);
      [apply (keeps_raise same_registry)|apply (keeps_ret same_registry)].
Qed.

Lemma keeps_start_fragment_runners parameters_map rfs : forall fragment_runner_map,
  keeps same_registry
    (start_fragment_runners ext parameters_map fragment_runner_map rfs).
Proof.
  induction rfs as [|rf rfs IH]; intros fragment_runner_map.
  - apply (keeps_ret same_registry).
  - cbn [start_fragment_runners].
    apply (keeps_bind same_registry); [apply keeps_resolve_executor_tag|]. intros tag.
    destruct (dict_get _ _) as [parameters|]; [|apply (keeps_raise same_registry)].
    apply (keeps_bind same_registry); [apply keeps_start_fragment_runner|]. intros runner. apply IH.
Qed.

(** The steps after the run is in the registry. *)
Lemma keeps_call_grows a : keeps registry_grows (call a).
Proof. by apply (keeps_update_self registry_grows). Qed.

Lemma keeps_register_in c et h : keeps registry_grows (register_in c et h).
Proof.
  unfold register_in. apply (keeps_bind registry_grows); [apply (keeps_load_table registry_grows)|].
  intros t. by apply (keeps_update_self registry_grows).
Qed.

Lemma keeps_EventCallback_init hs et k :
  keeps registry_grows (EventCallback_init hs et k).
Proof.
  unfold EventCallback_init. apply (keeps_bind registry_grows).
  { intros s s' r [= <- _]. done. }
  intros c. apply (keeps_bind registry_grows); [by apply (keeps_update_self registry_grows)|]. intros _.
  apply (keeps_bind registry_grows); [|intros _; apply (keeps_ret registry_grows)].
  apply (keeps_for_each registry_grows). intros h. apply keeps_register_in.
Qed.

Lemma keeps_store_run run x : keeps registry_grows (store_run run x).
Proof.
  apply (keeps_update_self registry_grows). intros s. split; [done|]. intros r Hr. simpl.
  destruct (decide (r = run)) as [->|Hne].
  - by rewrite lookup_insert_eq.
  - by rewrite lookup_insert_ne.
Qed.

Lemma keeps_gather_senders senders : keeps registry_grows (gather_senders senders).
Proof.
  unfold gather_senders. apply (keeps_for_each registry_grows).
  intros [runner b]. apply keeps_call_grows.
Qed.

Lemma keeps_prepare_senders event p sb_inst inst_artifact fragment_runner_map rfs :
  forall created,
    keeps registry_grows
      (prepare_senders ext event p sb_inst inst_artifact fragment_runner_map created rfs).
Proof.
  induction rfs as [|rf rfs IH]; intros created; [apply (keeps_ret registry_grows)|].
  cbn [prepare_senders].
  destruct (find _ _) as [fragment|]; [|apply (keeps_raise registry_grows)].
  apply (keeps_bind registry_grows).
  { destruct (fragment_input_artifact_paths fragment); [apply (keeps_ret registry_grows)|].
    apply (keeps_bind registry_grows); [apply keeps_call_grows|]. intros _.
    apply (keeps_bind registry_grows); [apply keeps_gather_senders|]. intros _.
    destruct (fragment_input_artifact_raw _ _ _);
      [apply (keeps_ret registry_grows)|apply (keeps_raise registry_grows)]. }
  intros fetched.
  destruct (dict_get _ _) as [runner|]; [|apply (keeps_raise registry_grows)].
  apply IH.
Qed.

End KeepsStart.

(** X14: however [_start_run] ends, it leaves one of two registries.
    Either it raised, and [_run_map], the run objects and the callbacks are
    as before.  Or the run is in [_run_map] under its id, bound to a run
    object of the store, and no other id of [_run_map] has changed.  So a
    start never makes a callback for a run that is not registered, and a
    start that returns has registered the run. *)
Theorem start_run_registry ext run_id event p update s s' r :
  _start_run ext run_id event p update s = (s', r) ->
  (same_registry s s' /\ exists e, r = inl e) \/
  (exists run,
     dict_get run_id (_run_map s') = Some run /\ is_Some (runs s' !! run) /\
     forall k, k ≠ run_id -> dict_get k (_run_map s') = dict_get k (_run_map s)).
Proof.
  unfold _start_run.
  destruct (fromJSON ext _ _ _) as [sb_inst|];
    [|intros [= <- <-]; left; split; [done|by eexists]].
  intros H. apply bind_outcome in H as [(e & H & ->)|(s1 & inst_artifact & H1 & H)].
  { left. split; [|by eexists]. revert H.
    destruct (input_artifact_paths sb_inst); [intros [= <-]; done|].
    unfold mbind, M_bind, call, update_self.
    destruct (inst_input_artifact_raw ext (inst_id p)); intros [= <-]; done. }
  assert (same_registry s s1) as Hreg1.
  { revert H1. destruct (input_artifact_paths sb_inst); [intros [= <-]; done|].
    unfold mbind, M_bind, call, update_self.
    destruct (inst_input_artifact_raw ext (inst_id p)); intros [= <-]; done. }
  apply bind_outcome in H as [(e & H & ->)|(s2 & started & H2 & H)].
  { left. split; [|by eexists]. etransitivity; [exact Hreg1|].
    by eapply keeps_start_fragment_runners. }
  assert (same_registry s s2) as (Hmap & _ & _).
  { etransitivity; [exact Hreg1|]. by eapply keeps_start_fragment_runners. }
  right. exists (next_ref s2).
  apply bind_outcome in H as [(e & H & _)|(s3 & run & H3 & H)]; [discriminate H|].
  injection H3 as <- <-.
  apply bind_outcome in H as [(e & H & _)|(s4 & [] & H4 & H)]; [discriminate H|].
  injection H4 as <-.
  apply bind_outcome in H as [(e & H & _)|(s5 & [] & H5 & H)]; [discriminate H|].
  injection H5 as <-.
  match type of H with
  | (?m ≫= ?k) ?s4 = _ =>
      assert (keeps registry_grows (m ≫= k)) as Hkeeps; [|apply Hkeeps in H as [H3 H4]]
  end.
  { apply (keeps_bind registry_grows); [apply keeps_EventCallback_init|]. intros _.
    apply (keeps_bind registry_grows); [apply keeps_EventCallback_init|]. intros st.
    apply (keeps_bind registry_grows); [apply (keeps_load_run registry_grows)|]. intros run1.
    apply (keeps_bind registry_grows); [apply keeps_store_run|]. intros _.
    apply (keeps_bind registry_grows); [apply keeps_EventCallback_init|]. intros ar.
    apply (keeps_bind registry_grows); [apply (keeps_load_run registry_grows)|]. intros run2.
    apply (keeps_bind registry_grows); [apply keeps_store_run|]. intros _.
    apply (keeps_bind registry_grows); [apply keeps_prepare_senders|]. intros senders.
    apply keeps_gather_senders. }
  rewrite H3. simpl. split; [apply dict_get_set_eq|]. split.
  - apply H4. simpl. by rewrite lookup_insert_eq.
  - intros k Hk. rewrite dict_get_set_ne by done. by rewrite Hmap.
Qed.

Lemma start_run_registry_witness :
  let event :=
    example_start_event [example_fragment 10 1 None;
                         example_fragment 11 2 (Some "podman")] in
  let outcome :=
    _start_run example_world 7 event
      (example_payload [example_fragment 10 1 None;
                        example_fragment 11 2 (Some "podman")])
      example_update example_runner in
  (same_registry example_runner outcome.1 /\ exists e, outcome.2 = inl e) \/
  (exists run,
     dict_get 7 (_run_map outcome.1) = Some run /\ is_Some (runs outcome.1 !! run) /\
     forall k, k ≠ 7 -> dict_get k (_run_map outcome.1)
                        = dict_get k (_run_map example_runner)).
Proof.
  intros event outcome.
  apply (start_run_registry example_world 7 event
           (example_payload [example_fragment 10 1 None;
                             example_fragment 11 2 (Some "podman")])
           example_update example_runner outcome.1 outcome.2).
  vm_compute. reflexivity.
Defined.

(** ** Sweeping again *)

(** A registry in which every run has an unfinished fragment is left alone
    by the sweep. *)
Lemma sweep_unfinished ks : forall s,
  (forall k, k ∈ ks ->
     exists r run, dict_get k (_run_map s) = Some r /\ runs s !! r = Some run /\
                   all_fragments_finished run = false) ->
  for_each ks sweep_run s = (s, inr tt).
Proof.
  induction ks as [|k ks IH]; intros s Hall; [done|].
  destruct (Hall k) as (r & run & Hget & Hrun & Hfin); [by left|].
  cbn [for_each]. unfold mbind, M_bind.
  rewrite (sweep_run_unfold k r run s Hget Hrun), Hfin.
  apply IH. intros k' Hk'. apply Hall. by right.
Qed.

Lemma keeps_remove_callback_registry c : keeps same_registry (remove_callback c).
Proof.
  intros s s' r H. pose proof (remove_callback_frame c s) as Hf.
  rewrite H in Hf. apply Hf.
Qed.

Lemma NoDup_dict_del {V} (k : Z) (d : list (Z * V)) :
  NoDup (dict_keys d) -> NoDup (dict_keys (dict_del k d)).
Proof.
  unfold dict_keys. induction d as [|[k0 v0] d IH]; [done|].
  cbn [dict_del]. rewrite fmap_cons. intros Hnd.
  apply NoDup_cons in Hnd as [Hk0 Hd].
  destruct (decide (k = k0)); [done|]. rewrite fmap_cons. apply NoDup_cons.
  split; [|by apply IH]. intros Hin. apply Hk0. clear -Hin.
  induction d as [|[k1 v1] d IHd]; [done|]. cbn [dict_del] in Hin.
  rewrite fmap_cons. destruct (decide (k = k1)); [by right|].
  rewrite fmap_cons in Hin. apply elem_of_cons in Hin as [->|Hin];
    [by left|right; by apply IHd].
Qed.

(** A teardown that returns has taken the run out of the registry and left
    the run objects alone. *)
Lemma tear_down_returns k run s s' :
  tear_down k run s = (s', inr tt) ->
  _run_map s' = dict_del k (_run_map s) /\ runs s' = runs s.
Proof.
  rewrite tear_down_unfold.
  destruct (for_each (run_callbacks run) remove_callback s) as [s1 [e|[]]] eqn:H1;
    [discriminate|].
  destruct (_stop_fragment_runners (fragment_runner_map run) s1) as [s2 [e|[]]] eqn:H2;
    [discriminate|].
  intros [= <-].
  apply (keeps_for_each same_registry _ _ keeps_remove_callback_registry) in H1
    as (Hm1 & Hr1 & _).
  apply keeps_stop_fragment_runners in H2 as (Hm2 & Hr2 & _).
  simpl. split; congruence.
Qed.

(** A sweep that returns has left the run objects as they are and taken
    exactly the finished runs out of the registry. *)
Lemma sweep_returns ks : forall s s',
  NoDup ks ->
  NoDup (dict_keys (_run_map s)) ->
  for_each ks sweep_run s = (s', inr tt) ->
  runs s' = runs s /\
  (forall k, k ∉ ks -> dict_get k (_run_map s') = dict_get k (_run_map s)) /\
  (forall k r run,
     k ∈ ks -> dict_get k (_run_map s) = Some r -> runs s !! r = Some run ->
     dict_get k (_run_map s')
     = if all_fragments_finished run then None else Some r).
Proof.
  induction ks as [|k0 ks IH]; intros s s' Hnd Hkeys Hrun.
  - injection Hrun as <-. split; [done|]. split; [done|].
    intros k r run Hk. by apply elem_of_nil in Hk.
  - apply NoDup_cons in Hnd as [Hnotin Hnd].
    cbn [for_each] in Hrun. apply bind_returns in Hrun as (s1 & [] & Hone & Hrest).
    assert (Hstep :
      runs s1 = runs s /\ NoDup (dict_keys (_run_map s1)) /\
      (forall k, k ≠ k0 -> dict_get k (_run_map s1) = dict_get k (_run_map s)) /\
      (forall r run, dict_get k0 (_run_map s) = Some r -> runs s !! r = Some run ->
         dict_get k0 (_run_map s1)
         = if all_fragments_finished run then None else Some r)).
    { destruct (dict_get k0 (_run_map s)) as [r0|] eqn:Hget0;
        [|unfold sweep_run, mbind, M_bind, get_self in Hone; rewrite Hget0 in Hone;
          discriminate].
      destruct (runs s !! r0) as [run0|] eqn:Hrun0;
        [|unfold sweep_run, mbind, M_bind, get_self, load_run in Hone;
          rewrite Hget0, Hrun0 in Hone; discriminate].
      rewrite (sweep_run_unfold k0 r0 run0 s Hget0 Hrun0) in Hone.
      destruct (all_fragments_finished run0) eqn:Hfin.
      - apply tear_down_returns in Hone as [Hm Hr].
        split; [done|]. split; [rewrite Hm; by apply NoDup_dict_del|]. split.
        + intros k Hk. rewrite Hm. by apply dict_get_del_ne.
        + intros r run [= <-] Hrun. rewrite Hrun0 in Hrun. injection Hrun as <-.
          rewrite Hfin, Hm. by apply dict_get_del_eq.
      - injection Hone as <-. split; [done|]. split; [done|]. split; [done|].
        intros r run [= <-] Hrun. rewrite Hrun0 in Hrun. injection Hrun as <-.
        by rewrite Hfin. }
    destruct Hstep as (Hr1 & Hnd1 & Hne1 & Heq1).
    destruct (IH s1 s' Hnd Hnd1 Hrest) as (Hr' & Hout & Hin).
    split; [congruence|]. split.
    + intros k Hk. apply not_elem_of_cons in Hk as [Hk Hks].
      rewrite Hout by done. by apply Hne1.
    + intros k r run Hk Hget Hrun. apply elem_of_cons in Hk as [->|Hk].
      * rewrite Hout by done. by eapply Heq1.
      * apply Hin; [done| |by rewrite Hr1]. rewrite Hne1; [done|]. by intros ->.
Qed.

(** X10: the sweep is idempotent: in a runner whose registered runs are
    ready and apart, a second sweep right after the first one finds only
    runs with an unfinished fragment, stops nothing and changes nothing. *)
Theorem sweep_twice s s' :
  NoDup (dict_keys (_run_map s)) ->
  registry_ready s (dict_keys (_run_map s)) ->
  sweep s = (s', inr tt) ->
  sweep s' = (s', inr tt).
Proof.
  intros Hkeys Hready Hsweep.
  destruct (sweep_returns (dict_keys (_run_map s)) s s' Hkeys Hkeys Hsweep)
    as (Hruns & Hout & Hin).
  unfold sweep, mbind, M_bind, get_self.
  apply sweep_unfinished. intros k Hk.
  assert (Hsome : dict_get k (_run_map s') ≠ None)
    by (intros Hnone; by apply dict_get_None in Hnone).
  destruct (decide (k ∈ dict_keys (_run_map s))) as [Hks|Hks].
  - destruct (Hready k Hks) as (r & run & Hget & Hr & _).
    rewrite (Hin k r run Hks Hget Hr) in Hsome.
    exists r, run. rewrite (Hin k r run Hks Hget Hr), Hruns.
    destruct (all_fragments_finished run); done.
  - rewrite (Hout k Hks) in Hsome. by apply dict_get_None in Hks.
Qed.

Lemma sweep_twice_witness :
  sweep (sweep two_runs_runner).1 = ((sweep two_runs_runner).1, inr tt).
Proof.
  apply (sweep_twice two_runs_runner).
  - by_evaluation.
  - exact two_runs_runner_ready.
  - vm_compute. reflexivity.
Defined.

(** ** A plug-in that fails to start *)

Lemma only_started_refl s : only_started s s.
Proof.
  split; [done|]. split; [done|]. exists []. by rewrite app_nil_r.
Qed.

Lemma only_started_trans s1 s2 s3 :
  only_started s1 s2 -> only_started s2 s3 -> only_started s1 s3.
Proof.
  intros (Hc1 & Hk1 & l1 & Ht1 & Hf1) (Hc2 & Hk2 & l2 & Ht2 & Hf2).
  split; [congruence|]. split; [by intros runner Hr; apply Hk2, Hk1|].
  exists (l1 ++ l2). split; [by rewrite Ht2, Ht1, app_assoc|].
  by apply Forall_app.
Qed.

Lemma start_fragment_runner_only_started ext executor parameters s s' r :
  _start_fragment_runner ext executor parameters s = (s', r) ->
  only_started s s'.
Proof.
  unfold _start_fragment_runner, mbind, M_bind, get_self.
  destruct (dict_get executor (_fragment_executor_configs s)) as [config|];
    [|intros [= <- _]; apply only_started_refl].
  simpl. destruct (plugin_starts ext _ _ _).
  - simpl. destruct (dict_get executor (fragment_runners s)) as [rs|] eqn:Hrs;
      intros [= <- _]; (split; [done|]); (split; [|eexists [_]; by repeat constructor]).
    + intros runner (rs' & Hrs' & Hin). unfold runner_known. simpl.
      destruct (decide (name runner = executor)) as [Heq|Hne].
      * rewrite Heq in *. rewrite Hrs in Hrs'. injection Hrs' as <-.
        eexists. rewrite dict_get_set_eq. split; [done|].
        unfold set_add. case_decide; [done|]. apply elem_of_app. by left.
      * exists rs'. by rewrite dict_get_set_ne.
    + done.
  - intros [= <- _]. split; [done|]. split; [done|].
    eexists [_]. by repeat constructor.
Qed.

Lemma resolve_configured_tag started rf s s' r :
  (forall tag, rf_fragment_executor_tag rf = Some tag ->
               is_Some (dict_get tag (_fragment_executor_configs s))) ->
  resolve_executor_tag started rf s = (s', r) -> s' = s.
Proof.
  intros Htag. unfold resolve_executor_tag, mbind, M_bind, get_self.
  destruct (rf_fragment_executor_tag rf) as [tag|].
  - unfold dict_mem. rewrite bool_decide_eq_true_2 by by apply Htag.
    by intros [= <- _].
  - destruct (_available_fragment_executors s); by intros [= <- _].
Qed.

(** X15: as long as every executor tag that the fragments name has a
    configuration, the loop of [_start_run] that starts the runners stops
    nothing, however it ends: every call it makes starts a plug-in, and
    every runner that was in [fragment_runners] is still there.  So when the
    plug-in of a later fragment fails to start and the loop raises, the
    runners it started for the earlier fragments stay registered and are not
    stopped. *)
Theorem start_loop_never_stops ext parameters_map rfs : forall started s s' r,
  (forall rf tag, rf ∈ rfs -> rf_fragment_executor_tag rf = Some tag ->
     is_Some (dict_get tag (_fragment_executor_configs s))) ->
  start_fragment_runners ext parameters_map started rfs s = (s', r) ->
  only_started s s'.
Proof.
  induction rfs as [|rf rfs IH]; intros started s s' r Htags Hrun.
  - injection Hrun as <- _. apply only_started_refl.
  - cbn [start_fragment_runners] in Hrun.
    assert (Hhere : forall tag, rf_fragment_executor_tag rf = Some tag ->
                      is_Some (dict_get tag (_fragment_executor_configs s)))
      by (intros tag; apply Htags; by left).
    apply bind_outcome in Hrun as [(e & Hrun & _)|(s1 & tag & Hres & Hrun)].
    { apply resolve_configured_tag in Hrun as ->; [apply only_started_refl|done]. }
    apply resolve_configured_tag in Hres as ->; [|done].
    destruct (dict_get (rf_fragment_object_id rf) parameters_map) as [parameters|];
      [|injection Hrun as <- _; apply only_started_refl].
    apply bind_outcome in Hrun as [(e & Hrun & _)|(s2 & runner & Hstart & Hrun)].
    { by eapply start_fragment_runner_only_started. }
    apply start_fragment_runner_only_started in Hstart.
    eapply only_started_trans; [exact Hstart|].
    eapply IH; [|exact Hrun].
    intros rf' tag' Hin Htag'. destruct Hstart as (-> & _). apply (Htags rf'); [by right|done].
Qed.

Lemma start_loop_never_stops_witness :
  let outcome :=
    start_fragment_runners example_world [(1, "p1"); (2, "p2")] []
      [example_fragment 10 1 None; example_fragment 11 2 (Some "docker")]
      example_runner in
  only_started example_runner outcome.1.
Proof.
  intros outcome.
  apply (start_loop_never_stops example_world [(1, "p1"); (2, "p2")]
           [example_fragment 10 1 None; example_fragment 11 2 (Some "docker")]
           [] example_runner outcome.1 outcome.2).
  - intros rf tag Hrf Htag. in_list Hrf.
    + discriminate Htag.
    + injection Htag as <-. vm_compute. by eexists.
  - vm_compute. reflexivity.
Defined.

(** ** Event types without a case *)

Lemma dispatch_unhandled ext updates key events s :
  handled_key key = false ->
  dispatch_fetched ext updates (key, events) s = (s, inr updates).
Proof.
  unfold handled_key, dispatch_fetched. intros H.
  apply orb_false_iff in H as [H H3]. apply orb_false_iff in H as [H1 H2].
  by rewrite H1, H2, H3.
Qed.

Lemma dispatch_handled ext updates key events :
  handled_key key = true ->
  forall items s,
    dispatch_all ext updates ((key, events) :: items) s
    = (dispatch_fetched ext updates (key, events)
         ≫= fun updates' => dispatch_all ext updates' items) s.
Proof. reflexivity. Qed.

Lemma dispatch_all_filter ext items : forall updates s,
  dispatch_all ext updates items s
  = dispatch_all ext updates (filter (fun item => handled_key item.1) items) s.
Proof.
  induction items as [|[key events] items IH]; intros updates s; [done|].
  destruct (handled_key key) eqn:Hkey.
  - rewrite filter_cons_True by (simpl; by rewrite Hkey).
    cbn [dispatch_all]. unfold mbind, M_bind.
    destruct (dispatch_fetched ext updates (key, events) s) as [s1 [e|updates']];
      [done|apply IH].
  - rewrite filter_cons_False by (simpl; rewrite Hkey; intros []).
    cbn [dispatch_all]. unfold mbind, M_bind.
    rewrite dispatch_unhandled by done. apply IH.
Qed.

Lemma filter_unhandled (fetched : list (string * list Event)) :
  Forall (fun item => handled_key item.1 = false) fetched ->
  filter (fun item => handled_key item.1) fetched = [].
Proof.
  induction fetched as [|item items IH]; [done|]. intros Hall.
  apply Forall_cons in Hall as [Hitem Hall].
  rewrite filter_cons_False; [by apply IH|]. rewrite Hitem. intros [].
Qed.

(** X17: a turn of [_handel_events] ignores the keys of the fetched bundle
    that it has no case for: it ends exactly as on the bundle without them.
    When the backend answers with such keys only, the turn makes no call
    after the fetch: the empty batch of updates is not sent. *)
Theorem turn_ignores_unhandled_keys ext (fetched : list (string * list Event)) s :
  _handel_events_turn ext fetched s
  = _handel_events_turn ext (filter (fun item => handled_key item.1) fetched) s /\
  (forall s1,
     Forall (fun item => handled_key item.1 = false) fetched ->
     sweep s = (s1, inr tt) ->
     _handel_events_turn ext fetched s
     = (with_trace (fun t => t ++ [rc_fetch_events event_query_bundle]) s1, inr tt)).
Proof.
  assert (Heq : _handel_events_turn ext fetched s
                = _handel_events_turn ext
                    (filter (fun item => handled_key item.1) fetched) s).
  { unfold _handel_events_turn, mbind, M_bind.
    destruct (sweep s) as [s1 [e|[]]]; [done|].
    destruct (call _ s1) as [s2 [e|[]]]; [done|].
    by rewrite dispatch_all_filter. }
  split; [exact Heq|]. intros s1 Hall Hsweep. rewrite Heq.
  rewrite (filter_unhandled fetched Hall).
  unfold _handel_events_turn, mbind, M_bind. by rewrite Hsweep.
Qed.

Lemma turn_ignores_unhandled_keys_witness :
  _handel_events_turn example_world [("ApiProxyEventRead", [EOther "ApiProxyEventRead"])]
    started_runner
  = (with_trace (fun t => t ++ [rc_fetch_events event_query_bundle]) started_runner,
     inr tt).
Proof.
  destruct (turn_ignores_unhandled_keys example_world
              [("ApiProxyEventRead", [EOther "ApiProxyEventRead"])] started_runner)
    as [_ Hquiet].
  apply Hquiet.
  - repeat constructor.
  - vm_compute. reflexivity.
Defined.
